(** * Planner: urgency engine and undo-capable task store

    A shallow embedding of [src/lib/dateUtils.ts] (urgency score and
    bucket grouping) and of [src/lib/taskStore.ts] (the task mutation
    store with its bounded undo history), together with the part of
    [src/lib/storage.ts] the store writes through.

    Modelling conventions.
    - JavaScript numbers are doubles.  Integral quantities (instants
      in milliseconds, minute differences, [order], [pomodoroCount])
      are [Z]; the [+ 1] the store applies to [order] and to
      [pomodoroCount] is the addition of doubles, written out in
      [add_one].  The urgency score, which is a product with the
      constants 0.5, 1.5, 0.9 and 1.1, is embedded twice: as the
      double the code computes ([getTaskUrgency_double], over
      primitive floats), and with exact products as a rational [Q],
      extended with the two infinities and NaN that subtraction of
      scores can produce ([getTaskUrgency]), for the comparisons of
      scores.
    - ISO timestamps, calendar dates, clock times, zone names and ids
      are [string]s, as in the [Task] interface.
    - [date-fns] and [date-fns-tz] are external libraries: zone
      resolution ([toZonedTime]) and the evaluator's local start of day
      ([startOfDay]) are parameters of the section that embeds
      [dateUtils.ts]; [isPast], [isToday] and [differenceInMinutes] are
      written out over them.  One evaluation reads the clock once
      ([now]), and the date and time strings of a task resolve to an
      instant (no Invalid Date).
    - The store's asynchronous functions run one at a time (each is
      awaited before the next is issued); every one is a computation in
      a state-and-rejection monad over the module's state. *)

From Stdlib Require Import PrimFloat Uint63.
From Stdlib Require Import ZArith QArith Qabs List String Ascii Bool Lia.
From Stdlib Require Import Permutation Sorted DecimalString Lqa.
Import ListNotations.

Local Open Scope string_scope.
Local Open Scope Z_scope.

(** ** The data model ([src/types.ts]) *)

Inductive TaskType := homework | life.
Inductive Priority := low | medium | high.

Record Task := mkTask {
  id : string;
  title : string;
  type : TaskType;
  subject : option string;
  notes : option string;
  createdAt : string;
  updatedAt : string;
  dueDate : option string;
  dueTime : option string;
  scheduledDate : option string;
  scheduledTime : option string;
  timeZone : string;
  estimatedMinutes : option Z;
  priority : option Priority;
  pomodoroCount : Z;
  completed : bool;
  completedAt : option string;
  order : Z
}.

(** [Partial<Task>]: every key may be absent ([None]); a present key
    carries a value of the field's own type, so a nullable field that is
    present and [null] is [Some None]. *)
Record PartialTask := mkPartial {
  p_id : option string;
  p_title : option string;
  p_type : option TaskType;
  p_subject : option (option string);
  p_notes : option (option string);
  p_createdAt : option string;
  p_updatedAt : option string;
  p_dueDate : option (option string);
  p_dueTime : option (option string);
  p_scheduledDate : option (option string);
  p_scheduledTime : option (option string);
  p_timeZone : option string;
  p_estimatedMinutes : option (option Z);
  p_priority : option (option Priority);
  p_pomodoroCount : option Z;
  p_completed : option bool;
  p_completedAt : option (option string);
  p_order : option Z
}.

Definition emptyPartial : PartialTask :=
  mkPartial None None None None None None None None None
            None None None None None None None None None.

Inductive ActionType := create | update | delete.

Record UndoAction := mkAction {
  action_type : ActionType;
  action_task : Task;
  previousTask : option Task
}.

(** ** JavaScript numbers, as far as the scores need them *)

Inductive number :=
| Num (q : Q)
| Infinity
| NegInfinity
| NaN.

(** [a - b] on numbers. *)
Definition number_sub (a b : number) : number :=
  match a, b with
  | Num x, Num y => Num (x - y)
  | Num _, Infinity => NegInfinity
  | Num _, NegInfinity => Infinity
  | Infinity, Num _ => Infinity
  | Infinity, NegInfinity => Infinity
  | NegInfinity, Num _ => NegInfinity
  | NegInfinity, Infinity => NegInfinity
  | Infinity, Infinity => NaN
  | NegInfinity, NegInfinity => NaN
  | NaN, _ => NaN
  | _, NaN => NaN
  end.

(** [v > 0]; false for NaN. *)
Definition number_pos (v : number) : bool :=
  match v with
  | Num q => negb (Qle_bool q 0)
  | Infinity => true
  | NegInfinity => false
  | NaN => false
  end.

(** [a < b]; false as soon as one side is NaN. *)
Definition number_lt (a b : number) : Prop :=
  match a, b with
  | Num x, Num y => (x < y)%Q
  | Num _, Infinity => True
  | NegInfinity, Num _ => True
  | NegInfinity, Infinity => True
  | _, _ => False
  end.

(** Two numbers denote the same value. *)
Definition number_eq (a b : number) : Prop :=
  match a, b with
  | Num x, Num y => (x == y)%Q
  | Infinity, Infinity => True
  | NegInfinity, NegInfinity => True
  | _, _ => False
  end.

(** ** Numbers as doubles

    A JavaScript number is an IEEE 754 binary64 value.  Every integer
    of magnitude at most 2^53 is one of them, exactly; beyond, only
    the multiples of 2 (up to 2^54), of 4 (up to 2^55), and so on. *)

(** The double nearest to an integer; exact up to 2^53 in magnitude,
    meant for magnitudes below 2^63. *)
Definition float_of_Z (z : Z) : float :=
  match z with
  | Z0 => 0%float
  | Zpos _ => of_uint63 (Uint63.of_Z z)
  | Zneg p => PrimFloat.opp (of_uint63 (Uint63.of_Z (Zpos p)))
  end.

Definition SAFE : Z := 2 ^ 53.

(** [m + 1] on an integral double [m], with the rounding to nearest,
    ties to even, of the addition written out: exact from [-2^53] up
    to [2^53 - 1]; between 2^53 and 2^54 in magnitude the doubles are
    the even integers and the odd [m + 1] goes to the neighbour that
    is a multiple of 4; from 2^54 on [m] absorbs the 1. *)
Definition add_one (m : Z) : Z :=
  if (- SAFE <=? m) && (m <? SAFE) then m + 1
  else if Z.abs m <? 2 * SAFE
       then (if m mod 4 =? 0 then m else m + 2)
       else m.

(** ** [Array.prototype.sort] with a comparator

    The comparators used below order by a score, so every conforming
    stable sort returns the same array; insertion from the right is the
    one written out here.  A comparator value that is NaN counts as 0. *)

Section Sort.
Context {A : Type} (cmp : A -> A -> number).

Fixpoint sort_insert (x : A) (l : list A) : list A :=
  match l with
  | [] => [x]
  | y :: l' =>
      if number_pos (cmp x y) then y :: sort_insert x l'
      else x :: y :: l'
  end.

Fixpoint sort (l : list A) : list A :=
  match l with
  | [] => []
  | x :: l' => sort_insert x (sort l')
  end.
End Sort.

(** ** [src/lib/dateUtils.ts] *)

(** A JavaScript string is falsy exactly when it is empty. *)
Definition truthy (s : string) : bool :=
  match s with
  | EmptyString => false
  | String _ _ => true
  end.

Definition MINUTE_MS : Z := 60000.

Section DateUtils.
(** [toZonedTime dateTimeString timeZone]: the instant, in
    milliseconds since the epoch. *)
Variable toZonedTime : string -> string -> Z.
(** The evaluator's local start of the day containing an instant. *)
Variable startOfDay : Z -> Z.
(** The clock reading of this evaluation. *)
Variable now : Z.

Definition isPast (d : Z) : bool := d <? now.
Definition isToday (d : Z) : bool := startOfDay d =? startOfDay now.
(** date-fns truncates the quotient toward zero. *)
Definition differenceInMinutes (l r : Z) : Z := Z.quot (l - r) MINUTE_MS.

Definition combineDateAndTime (date : string) (time : option string)
                              (tz : string) : Z :=
  let dateTimeString :=
    match time with
    | Some t => if truthy t then date ++ "T" ++ t ++ ":00"
                else date ++ "T00:00:00"
    | None => date ++ "T00:00:00"
    end in
  toZonedTime dateTimeString tz.

Definition getTaskDueDate (task : Task) : option Z :=
  match dueDate task with
  | Some d => if truthy d
              then Some (combineDateAndTime d (dueTime task) (timeZone task))
              else None
  | None => None
  end.

Definition getTaskScheduledDate (task : Task) : option Z :=
  match scheduledDate task with
  | Some d => if truthy d
              then Some (combineDateAndTime d (scheduledTime task)
                                            (timeZone task))
              else None
  | None => None
  end.

Definition isTaskOverdue (task : Task) : bool :=
  if completed task then false
  else match getTaskDueDate task with
       | None => false
       | Some d => isPast d
       end.

Definition isTaskDueToday (task : Task) : bool :=
  match getTaskDueDate task with
  | None => false
  | Some d => isToday d
  end.

Definition isTaskScheduledToday (task : Task) : bool :=
  match getTaskScheduledDate task with
  | None => false
  | Some d => isToday d
  end.

Definition is_priority (p : Priority) (o : option Priority) : bool :=
  match o, p with
  | Some low, low | Some medium, medium | Some high, high => true
  | _, _ => false
  end.

(** Urgency score, lower is more urgent. *)
Definition getTaskUrgency (task : Task) : number :=
  if completed task then Infinity
  else
    match getTaskDueDate task with
    | None => Infinity
    | Some due =>
        let minutesUntilDue := differenceInMinutes due now in
        if minutesUntilDue <? 0 then Num (inject_Z minutesUntilDue)
        else
          let priorityMultiplier : Q := 1%Q in
          let priorityMultiplier :=
            if is_priority high (priority task) then (5 # 10)%Q
            else priorityMultiplier in
          let priorityMultiplier :=
            if is_priority low (priority task) then (15 # 10)%Q
            else priorityMultiplier in
          let typeMultiplier :=
            match type task with
            | homework => (9 # 10)%Q
            | life => (11 # 10)%Q
            end in
          Num (inject_Z minutesUntilDue * priorityMultiplier
               * typeMultiplier)
    end.

(** The same function with its numbers as the doubles they are.  The
    integer [differenceInMinutes] answers is held exactly (instants
    are less than 2^53 milliseconds apart; date-fns answers 0, never
    -0, within a minute); each of the two products rounds. *)
#[warnings="-inexact-float"]
Definition getTaskUrgency_double (task : Task) : float :=
  if completed task then infinity
  else
    match getTaskDueDate task with
    | None => infinity
    | Some due =>
        let minutesUntilDue := differenceInMinutes due now in
        if minutesUntilDue <? 0 then float_of_Z minutesUntilDue
        else
          let priorityMultiplier : float := 1%float in
          let priorityMultiplier :=
            if is_priority high (priority task) then 0.5%float
            else priorityMultiplier in
          let priorityMultiplier :=
            if is_priority low (priority task) then 1.5%float
            else priorityMultiplier in
          let typeMultiplier :=
            match type task with
            | homework => 0.9%float
            | life => 1.1%float
            end in
          (float_of_Z minutesUntilDue * priorityMultiplier
           * typeMultiplier)%float
    end.

(** The four arrays the grouping loop pushes to. *)
Record Groups := mkGroups {
  urgent : list Task;
  today : list Task;
  upcoming : list Task;
  someday : list Task
}.

Definition WEEK_MINUTES : Z := 7 * 24 * 60.

Fixpoint groupLoop (tasks : list Task) (g : Groups) : Groups :=
  match tasks with
  | [] => g
  | task :: rest =>
      if completed task then groupLoop rest g
      else
        let dueDate := getTaskDueDate task in
        let scheduledDate := getTaskScheduledDate task in
        if match dueDate with
           | Some d => isPast d || isToday d
           | None => false
           end
        then groupLoop rest
               (mkGroups (urgent g ++ [task]) (today g) (upcoming g)
                         (someday g))
        else if match scheduledDate with
                | Some d => isToday d
                | None => false
                end
        then groupLoop rest
               (mkGroups (urgent g) (today g ++ [task]) (upcoming g)
                         (someday g))
        else if match dueDate with
                | Some d => differenceInMinutes d now <? WEEK_MINUTES
                | None => false
                end
        then groupLoop rest
               (mkGroups (urgent g) (today g) (upcoming g ++ [task])
                         (someday g))
        else groupLoop rest
               (mkGroups (urgent g) (today g) (upcoming g)
                         (someday g ++ [task]))
  end.

Definition byUrgency (a b : Task) : number :=
  number_sub (getTaskUrgency a) (getTaskUrgency b).

Definition byOrder (a b : Task) : number :=
  Num (inject_Z (order a - order b)).

Definition groupTasksByUrgency (tasks : list Task) : Groups :=
  let g := groupLoop tasks (mkGroups [] [] [] []) in
  mkGroups (sort byUrgency (urgent g))
           (sort byUrgency (today g))
           (sort byUrgency (upcoming g))
           (sort byOrder (someday g)).

(** *** The urgency score as the specification words it

    Written from the specification's sentences, with none of the
    functions above: [resolveInstant] combines the date with the time,
    midnight when the time is absent; the due instant is null when the
    date field is null and only then; [minutesUntilDue] is the
    difference of the two instants in minutes, negative if overdue;
    the score is a product of numbers. *)

Definition resolveInstant_spec (date : string) (time : option string)
                               (zone : string) : Z :=
  match time with
  | Some t => toZonedTime (date ++ "T" ++ t ++ ":00") zone
  | None => toZonedTime (date ++ "T00:00:00") zone
  end.

Definition effectiveDueInstant_spec (task : Task) : option Z :=
  match dueDate task with
  | None => None
  | Some date =>
      Some (resolveInstant_spec date (dueTime task) (timeZone task))
  end.

Definition minutesUntilDue_spec (dueInstant : Z) : Q :=
  (inject_Z (dueInstant - now) / inject_Z 60000)%Q.

Definition priorityMultiplier_spec (p : option Priority) : Q :=
  match p with
  | Some high => (1 # 2)%Q
  | Some medium => 1%Q
  | None => 1%Q
  | Some low => (3 # 2)%Q
  end.

Definition kindMultiplier_spec (k : TaskType) : Q :=
  match k with
  | homework => (9 # 10)%Q
  | life => (11 # 10)%Q
  end.

Definition urgencyScore_spec (task : Task) : number :=
  if completed task then Infinity
  else
    match effectiveDueInstant_spec task with
    | None => Infinity
    | Some dueInstant =>
        let minutesUntilDue := minutesUntilDue_spec dueInstant in
        if negb (Qle_bool 0 minutesUntilDue) then Num minutesUntilDue
        else Num (minutesUntilDue
                  * priorityMultiplier_spec (priority task)
                  * kindMultiplier_spec (type task))
    end.

(** *** The score by cases, in doubles

    The quantities the case analysis of the score is stated with: the
    clock time a due instant is resolved at, and the two multipliers
    as doubles. *)

Definition clock_or_midnight (time : option string) : string :=
  match time with
  | Some (String c t) => String c t
  | Some EmptyString | None => "00:00"
  end.

#[warnings="-inexact-float"]
Definition priorityMultiplier_double (p : option Priority) : float :=
  match p with
  | Some high => 0.5%float
  | Some medium | None => 1%float
  | Some low => 1.5%float
  end.

#[warnings="-inexact-float"]
Definition kindMultiplier_double (k : TaskType) : float :=
  match k with
  | homework => 0.9%float
  | life => 1.1%float
  end.

(** The bucket a non-completed task belongs to, read off the loop's
    tests. *)
Inductive Bucket := BUrgent | BToday | BUpcoming | BSomeday.

Definition dueUrgent (task : Task) : bool :=
  match getTaskDueDate task with
  | Some d => isPast d || isToday d
  | None => false
  end.

Definition dueWithinWeek (task : Task) : bool :=
  match getTaskDueDate task with
  | Some d => differenceInMinutes d now <? WEEK_MINUTES
  | None => false
  end.

Definition bucketOf (task : Task) : Bucket :=
  if dueUrgent task then BUrgent
  else if isTaskScheduledToday task then BToday
  else if dueWithinWeek task then BUpcoming
  else BSomeday.

Definition Bucket_eqb (a b : Bucket) : bool :=
  match a, b with
  | BUrgent, BUrgent | BToday, BToday
  | BUpcoming, BUpcoming | BSomeday, BSomeday => true
  | _, _ => false
  end.

(** The task is not completed and [b] is its bucket. *)
Definition goes_to (b : Bucket) (task : Task) : bool :=
  negb (completed task) && Bucket_eqb (bucketOf task) b.

Definition bucket_list (b : Bucket) (g : Groups) : list Task :=
  match b with
  | BUrgent => urgent g
  | BToday => today g
  | BUpcoming => upcoming g
  | BSomeday => someday g
  end.

End DateUtils.

(** ** Array helpers used by the store and the adapter *)

Section Arrays.
Context {A : Type}.

(** [arr.findIndex(p)]; [None] stands for [-1]. *)
Fixpoint findIndex (p : A -> bool) (l : list A) : option nat :=
  match l with
  | [] => None
  | x :: l' =>
      if p x then Some O
      else match findIndex p l' with
           | Some i => Some (S i)
           | None => None
           end
  end.

(** [arr[i] = x] on a copy; every index used below comes from
    [findIndex] on the same array, so it is in range. *)
Fixpoint set_nth (i : nat) (x : A) (l : list A) : list A :=
  match l, i with
  | [], _ => []
  | _ :: l', O => x :: l'
  | y :: l', S j => y :: set_nth j x l'
  end.

(** [arr.pop()]: the last element and what remains. *)
Fixpoint pop (l : list A) : option (list A * A) :=
  match l with
  | [] => None
  | x :: l' =>
      match pop l' with
      | None => Some ([], x)
      | Some (r, y) => Some (x :: r, y)
      end
  end.

(** [arr.shift()]: drops the first element. *)
Definition shift (l : list A) : list A := tl l.
End Arrays.

(** ** The module state of [taskStore.ts] and the adapter's records *)

Record Store := mkStore {
  tasks : list Task;
  loading : bool;
  undoStack : list UndoAction;
  db : list Task
}.

Definition MAX_UNDO_STACK : nat := 50.

(** The state before [initStore]: no tasks, [loading] set, empty
    history, whatever the adapter holds. *)
Definition initial (persisted : list Task) : Store :=
  mkStore [] true [] persisted.

(** What the environment hands to one call: the clock reading, the
    generated uuid, the user's zone, and whether the adapter's write
    goes through. *)
Record Env := mkEnv {
  env_now : string;
  env_uuid : string;
  env_timeZone : string;
  env_io : bool
}.

(** *** Asynchronous functions: state passing with rejection *)

Inductive outcome (A : Type) :=
| Resolved (a : A)
| Rejected.
Arguments Resolved {A} a.
Arguments Rejected {A}.

Definition Async (A : Type) : Type := Store -> Store * outcome A.

Definition ret {A} (a : A) : Async A := fun s => (s, Resolved a).

Definition bind {A B} (c : Async A) (k : A -> Async B) : Async B :=
  fun s =>
    match c s with
    | (s', Resolved a) => k a s'
    | (s', Rejected) => (s', Rejected)
    end.

Notation "x <- c ;; k" := (bind c (fun x => k))
  (at level 61, c at next level, right associativity).
Notation "c ;;; k" := (bind c (fun _ => k))
  (at level 61, right associativity).

(** [try { c } catch { }]: a rejection is swallowed, the state written
    so far stays. *)
Definition try_catch (c : Async unit) : Async unit :=
  fun s => (fst (c s), Resolved tt).

Definition getTasks : Async (list Task) := fun s => (s, Resolved (tasks s)).

Definition setTasks (l : list Task) : Async unit :=
  fun s => (mkStore l (loading s) (undoStack s) (db s), Resolved tt).

Definition setLoading (b : bool) : Async unit :=
  fun s => (mkStore (tasks s) b (undoStack s) (db s), Resolved tt).

(** *** [storage.ts]

    The record store is keyed by [id]: [saveTask] replaces the record
    with the task's id or adds one, [deleteTask] removes the records
    with the id.  Whether a request goes through is the environment's
    choice ([io]); a request that errors rejects the call and, as an
    IndexedDB request does, leaves the records as they were. *)

Definition has_id (i : string) (t : Task) : bool := String.eqb (id t) i.

Definition put (task : Task) (records : list Task) : list Task :=
  match findIndex (has_id (id task)) records with
  | Some index => set_nth index task records
  | None => (records ++ [task])%list
  end.

Definition getAllTasks (io : bool) : Async (list Task) :=
  fun s => if io then (s, Resolved (db s)) else (s, Rejected).

Definition saveTask (io : bool) (task : Task) : Async unit :=
  fun s =>
    if io
    then (mkStore (tasks s) (loading s) (undoStack s) (put task (db s)),
          Resolved tt)
    else (s, Rejected).

Definition deleteTask (io : bool) (i : string) : Async unit :=
  fun s =>
    if io
    then (mkStore (tasks s) (loading s) (undoStack s)
                  (filter (fun t => negb (has_id i t)) (db s)),
          Resolved tt)
    else (s, Rejected).

(** *** [taskStore.ts] *)

Definition initStore (io : bool) : Async unit :=
  try_catch (loadedTasks <- getAllTasks io ;; setTasks loadedTasks) ;;;
  setLoading false.

Definition pushAction (action : UndoAction) (stack : list UndoAction)
  : list UndoAction :=
  let stack := (stack ++ [action])%list in
  if (MAX_UNDO_STACK <? List.length stack)%nat then shift stack else stack.

Definition addToUndoStack (action : UndoAction) : Async unit :=
  fun s =>
    (mkStore (tasks s) (loading s) (pushAction action (undoStack s)) (db s),
     Resolved tt).

Definition getUndoStackLength (s : Store) : nat := List.length (undoStack s).

Definition canUndo (s : Store) : bool := (0 <? List.length (undoStack s))%nat.

Definition clearUndoStack : Async unit :=
  fun s => (mkStore (tasks s) (loading s) [] (db s), Resolved tt).

(** [x || d] on the fields of the partial. *)
Definition or_string (x : option string) (d : string) : string :=
  match x with
  | Some v => if truthy v then v else d
  | None => d
  end.

Definition or_null_string (x : option (option string)) : option string :=
  match x with
  | Some (Some v) => if truthy v then Some v else None
  | _ => None
  end.

Definition or_null_number (x : option (option Z)) : option Z :=
  match x with
  | Some (Some n) => if n =? 0 then None else Some n
  | _ => None
  end.

Definition or_null_priority (x : option (option Priority))
  : option Priority :=
  match x with
  | Some (Some p) => Some p
  | _ => None
  end.

Definition or_type (x : option TaskType) (d : TaskType) : TaskType :=
  match x with
  | Some k => k
  | None => d
  end.

(** [Math.max(...orders)] of a non-empty array, [0] for an empty one. *)
Definition maxOrderOf (currentTasks : list Task) : Z :=
  match map order currentTasks with
  | [] => 0
  | o :: os => fold_left Z.max os o
  end.

Definition newTask (e : Env) (data : PartialTask) (currentTasks : list Task)
  : Task :=
  let now := env_now e in
  let maxOrder := maxOrderOf currentTasks in
  {| id := env_uuid e;
     title := or_string (p_title data) "Untitled Task";
     type := or_type (p_type data) life;
     subject := or_null_string (p_subject data);
     notes := or_null_string (p_notes data);
     createdAt := now;
     updatedAt := now;
     dueDate := or_null_string (p_dueDate data);
     dueTime := or_null_string (p_dueTime data);
     scheduledDate := or_null_string (p_scheduledDate data);
     scheduledTime := or_null_string (p_scheduledTime data);
     timeZone := env_timeZone e;
     estimatedMinutes := or_null_number (p_estimatedMinutes data);
     priority := or_null_priority (p_priority data);
     pomodoroCount := 0;
     completed := false;
     completedAt := None;
     order := add_one maxOrder |}.

Definition createTask (e : Env) (data : PartialTask) : Async Task :=
  currentTasks <- getTasks ;;
  let task := newTask e data currentTasks in
  saveTask (env_io e) task ;;;
  setTasks (currentTasks ++ [task]) ;;;
  addToUndoStack (mkAction create task None) ;;;
  ret task.

(** A key of the patch that is present overrides the snapshot's. *)
Definition over {A} (x : option A) (d : A) : A :=
  match x with
  | Some v => v
  | None => d
  end.

(** [{ ...previousTask, ...updates, updatedAt: now }] *)
Definition merged (previous : Task) (updates : PartialTask) (now : string)
  : Task :=
  {| id := over (p_id updates) (id previous);
     title := over (p_title updates) (title previous);
     type := over (p_type updates) (type previous);
     subject := over (p_subject updates) (subject previous);
     notes := over (p_notes updates) (notes previous);
     createdAt := over (p_createdAt updates) (createdAt previous);
     updatedAt := now;
     dueDate := over (p_dueDate updates) (dueDate previous);
     dueTime := over (p_dueTime updates) (dueTime previous);
     scheduledDate := over (p_scheduledDate updates) (scheduledDate previous);
     scheduledTime := over (p_scheduledTime updates) (scheduledTime previous);
     timeZone := over (p_timeZone updates) (timeZone previous);
     estimatedMinutes :=
       over (p_estimatedMinutes updates) (estimatedMinutes previous);
     priority := over (p_priority updates) (priority previous);
     pomodoroCount := over (p_pomodoroCount updates) (pomodoroCount previous);
     completed := over (p_completed updates) (completed previous);
     completedAt := over (p_completedAt updates) (completedAt previous);
     order := over (p_order updates) (order previous) |}.

Definition updateTask (e : Env) (i : string) (updates : PartialTask)
  : Async (option Task) :=
  currentTasks <- getTasks ;;
  match findIndex (has_id i) currentTasks with
  | None => ret None
  | Some index =>
      match nth_error currentTasks index with
      | None => ret None (* not reached: [index] is in range *)
      | Some previous =>
          let updatedTask := merged previous updates (env_now e) in
          saveTask (env_io e) updatedTask ;;;
          setTasks (set_nth index updatedTask currentTasks) ;;;
          addToUndoStack (mkAction update updatedTask (Some previous)) ;;;
          ret (Some updatedTask)
      end
  end.

Definition removeTask (io : bool) (i : string) : Async unit :=
  currentTasks <- getTasks ;;
  match find (has_id i) currentTasks with
  | None => ret tt
  | Some task =>
      deleteTask io i ;;;
      setTasks (filter (fun t => negb (has_id i t)) currentTasks) ;;;
      addToUndoStack (mkAction delete task None)
  end.

(** The [updates] object of [toggleTaskCompletion]; [stamp] is the clock
    reading taken for [completedAt] ([updateTask] reads the clock again
    for [updatedAt]). *)
Definition toggle_patch (stamp : string) (task : Task) : PartialTask :=
  {| p_id := None; p_title := None; p_type := None;
     p_subject := None; p_notes := None; p_createdAt := None;
     p_updatedAt := None; p_dueDate := None; p_dueTime := None;
     p_scheduledDate := None; p_scheduledTime := None;
     p_timeZone := None; p_estimatedMinutes := None;
     p_priority := None; p_pomodoroCount := None;
     p_completed := Some (negb (completed task));
     p_completedAt :=
       Some (if negb (completed task) then Some stamp else None);
     p_order := None |}.

Definition toggleTaskCompletion (stamp : string) (e : Env) (i : string)
  : Async unit :=
  currentTasks <- getTasks ;;
  match find (has_id i) currentTasks with
  | None => ret tt
  | Some task =>
      let updates := toggle_patch stamp task in
      updateTask e i updates ;;; ret tt
  end.

(** The [updates] object of [incrementPomodoro]. *)
Definition pomodoro_patch (task : Task) : PartialTask :=
  {| p_id := None; p_title := None; p_type := None;
     p_subject := None; p_notes := None; p_createdAt := None;
     p_updatedAt := None; p_dueDate := None; p_dueTime := None;
     p_scheduledDate := None; p_scheduledTime := None;
     p_timeZone := None; p_estimatedMinutes := None;
     p_priority := None;
     p_pomodoroCount := Some (add_one (pomodoroCount task));
     p_completed := None; p_completedAt := None;
     p_order := None |}.

Definition incrementPomodoro (e : Env) (i : string) : Async unit :=
  currentTasks <- getTasks ;;
  match find (has_id i) currentTasks with
  | None => ret tt
  | Some task =>
      let updates := pomodoro_patch task in
      updateTask e i updates ;;; ret tt
  end.

(** [undoStack.pop()] *)
Definition popAction : Async (option UndoAction) :=
  fun s =>
    match pop (undoStack s) with
    | None => (s, Resolved None)
    | Some (rest, action) =>
        (mkStore (tasks s) (loading s) rest (db s), Resolved (Some action))
    end.

Definition undo (io : bool) : Async unit :=
  popped <- popAction ;;
  match popped with
  | None => ret tt
  | Some action =>
      currentTasks <- getTasks ;;
      match action_type action, previousTask action with
      | create, _ =>
          deleteTask io (id (action_task action)) ;;;
          setTasks (filter (fun t => negb (has_id (id (action_task action)) t))
                           currentTasks)
      | update, Some previous =>
          saveTask io previous ;;;
          match findIndex (has_id (id previous)) currentTasks with
          | Some index => setTasks (set_nth index previous currentTasks)
          | None => ret tt
          end
      | update, None => ret tt
      | delete, _ =>
          saveTask io (action_task action) ;;;
          setTasks (currentTasks ++ [action_task action])
      end
  end.

(** *** Sequences of calls *)

Inductive Op :=
| OInit (io : bool)
| OCreate (e : Env) (data : PartialTask)
| OUpdate (e : Env) (i : string) (updates : PartialTask)
| ORemove (io : bool) (i : string)
| OToggle (stamp : string) (e : Env) (i : string)
| OIncrement (e : Env) (i : string)
| OUndo (io : bool)
| OClear.

(** The state a call leaves behind, resolved or rejected. *)
Definition step (o : Op) (s : Store) : Store :=
  match o with
  | OInit io => fst (initStore io s)
  | OCreate e data => fst (createTask e data s)
  | OUpdate e i updates => fst (updateTask e i updates s)
  | ORemove io i => fst (removeTask io i s)
  | OToggle stamp e i => fst (toggleTaskCompletion stamp e i s)
  | OIncrement e i => fst (incrementPomodoro e i s)
  | OUndo io => fst (undo io s)
  | OClear => fst (clearUndoStack s)
  end.

Fixpoint exec (ops : list Op) (s : Store) : Store :=
  match ops with
  | [] => s
  | o :: rest => exec rest (step o s)
  end.

(** [n] calls of [undo], each with a write that goes through. *)
Fixpoint undo_n (n : nat) (s : Store) : Store :=
  match n with
  | O => s
  | S m => fst (undo true (undo_n m s))
  end.

Definition ids (l : list Task) : list string := map id l.

Definition present (i : string) (l : list Task) : bool :=
  existsb (has_id i) l.

Definition keeps_id (i : string) (updates : PartialTask) : bool :=
  match p_id updates with
  | None => true
  | Some j => String.eqb j i
  end.

(** A mutation takes effect: its write goes through, an update or
    delete finds its task, an update leaves the id alone, and a create
    draws an id no live task has. *)
Definition takes_effect (o : Op) (s : Store) : bool :=
  match o with
  | OCreate e _ => env_io e && negb (present (env_uuid e) (tasks s))
  | OUpdate e i updates =>
      env_io e && present i (tasks s) && keeps_id i updates
  | ORemove io i => io && present i (tasks s)
  | OToggle _ e i => env_io e && present i (tasks s)
  | OIncrement e i => env_io e && present i (tasks s)
  | OInit _ | OUndo _ | OClear => false
  end.

Fixpoint all_take_effect (ops : list Op) (s : Store) : bool :=
  match ops with
  | [] => true
  | o :: rest => takes_effect o s && all_take_effect rest (step o s)
  end.

(** What [undo] does to the in-memory collection when it replays
    [action] and the adapter's write goes through. *)
Definition undone (action : UndoAction) (currentTasks : list Task)
  : list Task :=
  match action_type action, previousTask action with
  | create, _ =>
      filter (fun t => negb (has_id (id (action_task action)) t)) currentTasks
  | update, Some previous =>
      match findIndex (has_id (id previous)) currentTasks with
      | Some index => set_nth index previous currentTasks
      | None => currentTasks
      end
  | update, None => currentTasks
  | delete, _ => (currentTasks ++ [action_task action])%list
  end.

(** The contract of a mutation that takes effect: it pushes one record,
    keeps the ids distinct, and replaying the record on any arrangement
    of the new collection gives back an arrangement of the old one. *)
Definition inverted_by (s s' : Store) (a : UndoAction) : Prop :=
  undoStack s' = pushAction a (undoStack s) /\
  NoDup (ids (tasks s')) /\
  forall l, Permutation l (tasks s') -> Permutation (undone a l) (tasks s).

(** Every call leaves the history as it was, pushes one record, pops
    one, or empties it. *)
Inductive history_change (st st' : list UndoAction) : Prop :=
| hc_same : st' = st -> history_change st st'
| hc_push : forall a, st' = pushAction a st -> history_change st st'
| hc_pop : forall a, st = (st' ++ [a])%list -> history_change st st'
| hc_clear : st' = [] -> history_change st st'.

(** *** Completion *)

(** [completed == true] exactly when [completedAt != null]. *)
Definition consistent (t : Task) : Prop :=
  completed t = true <-> completedAt t <> None.

Definition record_consistent (a : UndoAction) : Prop :=
  consistent (action_task a) /\
  forall previous, previousTask a = Some previous -> consistent previous.

(** The invariant, on everything a later call can bring back into the
    collection: the live tasks, the snapshots in the history, and the
    adapter's records. *)
Definition completion_inv (s : Store) : Prop :=
  Forall consistent (tasks s) /\
  Forall record_consistent (undoStack s) /\
  Forall consistent (db s).

(** A patch that leaves [completed] and [completedAt] alone, or sets
    both in agreement. *)
Definition patch_safe (u : PartialTask) : Prop :=
  match p_completed u, p_completedAt u with
  | None, None => True
  | Some c, Some stamp => c = true <-> stamp <> None
  | _, _ => False
  end.

Definition completion_safe (o : Op) : Prop :=
  match o with
  | OUpdate _ _ u => patch_safe u
  | _ => True
  end.

(** Two partials that differ at most in the keys [createTask] never
    reads: [id], [completed], [completedAt], [pomodoroCount], [order]
    (and the two timestamps and the zone, which it always sets). *)
Definition same_read_keys (d d' : PartialTask) : Prop :=
  p_title d = p_title d' /\ p_type d = p_type d' /\
  p_subject d = p_subject d' /\ p_notes d = p_notes d' /\
  p_dueDate d = p_dueDate d' /\ p_dueTime d = p_dueTime d' /\
  p_scheduledDate d = p_scheduledDate d' /\
  p_scheduledTime d = p_scheduledTime d' /\
  p_estimatedMinutes d = p_estimatedMinutes d' /\
  p_priority d = p_priority d'.

(** ** Concrete data for the examples *)

Definition with_priority (p : option Priority) (t : Task) : Task :=
  {| id := id t; title := title t; type := type t; subject := subject t;
     notes := notes t; createdAt := createdAt t; updatedAt := updatedAt t;
     dueDate := dueDate t; dueTime := dueTime t;
     scheduledDate := scheduledDate t; scheduledTime := scheduledTime t;
     timeZone := timeZone t; estimatedMinutes := estimatedMinutes t;
     priority := p; pomodoroCount := pomodoroCount t;
     completed := completed t; completedAt := completedAt t;
     order := order t |}.

(** Zone resolution for the zone "UTC", on the date-time strings the
    examples use. *)
Definition utc_toZonedTime (dateTimeString tz : string) : Z :=
  if String.eqb dateTimeString "1970-01-08T00:00:00" then 604800000
  else if String.eqb dateTimeString "1970-01-07T23:59:00" then 604740000
  else if String.eqb dateTimeString "1970-01-03T12:00:00" then 216000000
  else if String.eqb dateTimeString "1970-01-01T00:00:00" then 0
  else if String.eqb dateTimeString "1969-12-31T23:55:00" then -300000
  else 0.

(** Start of the UTC day. *)
Definition utc_startOfDay (d : Z) : Z := 86400000 * (d / 86400000).

(** A homework task, not completed, with the given due date and time,
    created in the zone "UTC". *)
Definition sample_task (i : string) (due : option string)
                       (time : option string) : Task :=
  {| id := i; title := "Essay"; type := homework; subject := Some "History";
     notes := None; createdAt := "1969-12-01T08:00:00.000Z";
     updatedAt := "1969-12-01T08:00:00.000Z";
     dueDate := due; dueTime := time;
     scheduledDate := None; scheduledTime := None;
     timeZone := "UTC"; estimatedMinutes := None; priority := None;
     pomodoroCount := 0; completed := false; completedAt := None;
     order := 1 |}.

Definition due_in_a_week : Task :=
  sample_task "t-week" (Some "1970-01-08") None.

Definition due_five_minutes_ago : Task :=
  sample_task "t-late" (Some "1969-12-31") (Some "23:55").

Definition due_in_two_days : Task :=
  sample_task "t-soon" (Some "1970-01-03") (Some "12:00").

(** Due at the epoch. *)
Definition due_at_epoch : Task :=
  sample_task "t-epoch" (Some "1970-01-01") None.

(** Five minutes past due and scheduled for today. *)
Definition late_and_scheduled : Task :=
  {| id := "t-both"; title := "Lab report"; type := homework;
     subject := None; notes := None;
     createdAt := "1969-12-01T08:00:00.000Z";
     updatedAt := "1969-12-01T08:00:00.000Z";
     dueDate := Some "1969-12-31"; dueTime := Some "23:55";
     scheduledDate := Some "1970-01-01"; scheduledTime := None;
     timeZone := "UTC"; estimatedMinutes := Some 30; priority := Some low;
     pomodoroCount := 2; completed := false; completedAt := None;
     order := 5 |}.

(** A completed task that was due two days ahead. *)
Definition done_task : Task :=
  {| id := "t-done"; title := "Laundry"; type := life;
     subject := None; notes := None;
     createdAt := "1969-12-01T08:00:00.000Z";
     updatedAt := "1969-12-30T08:00:00.000Z";
     dueDate := Some "1970-01-03"; dueTime := Some "12:00";
     scheduledDate := None; scheduledTime := None;
     timeZone := "UTC"; estimatedMinutes := None; priority := None;
     pomodoroCount := 0; completed := true;
     completedAt := Some "1969-12-30T08:00:00.000Z";
     order := 2 |}.

Definition sample_tasks : list Task :=
  [due_in_a_week; done_task; late_and_scheduled; due_in_two_days].

(** The environment of the [n]-th call of a scripted run: the write
    goes through and the generated id is "id-" followed by [n] in two
    digits. *)
Definition digit (n : nat) : ascii := ascii_of_nat (48 + n).

Definition nth_uuid (n : nat) : string :=
  "id-" ++ String (digit (n / 10)) (String (digit (n mod 10)) "").

Definition nth_env (n : nat) : Env :=
  mkEnv "1970-01-01T00:00:00.000Z" (nth_uuid n) "UTC" true.

(** [count] calls of [createTask], numbered from [from]. *)
Definition creates (from count : nat) : list Op :=
  map (fun n => OCreate (nth_env n) emptyPartial) (seq from count).

(** A run over two tasks: both created, the first toggled, the second
    retitled, the first deleted, a pomodoro counted on the second. *)
Definition retitle : PartialTask :=
  {| p_id := None; p_title := Some "Read chapter 4"; p_type := None;
     p_subject := None; p_notes := None; p_createdAt := None;
     p_updatedAt := None; p_dueDate := Some (Some "1970-01-03");
     p_dueTime := None; p_scheduledDate := None; p_scheduledTime := None;
     p_timeZone := None; p_estimatedMinutes := None; p_priority := None;
     p_pomodoroCount := None; p_completed := None; p_completedAt := None;
     p_order := None |}.

Definition sample_run : list Op :=
  [ OCreate (nth_env 0) emptyPartial;
    OCreate (nth_env 1) emptyPartial;
    OToggle "1970-01-01T09:00:00.000Z"
            (mkEnv "1970-01-01T09:00:00.001Z" "" "UTC" true) (nth_uuid 0);
    OUpdate (mkEnv "1970-01-01T10:00:00.000Z" "" "UTC" true) (nth_uuid 1)
            retitle;
    ORemove true (nth_uuid 0);
    OIncrement (mkEnv "1970-01-01T11:00:00.000Z" "" "UTC" true)
               (nth_uuid 1) ].

(** A partial that supplies every key [createTask] ignores. *)
Definition intrusive : PartialTask :=
  {| p_id := Some "chosen-by-caller"; p_title := Some "Essay";
     p_type := Some homework; p_subject := None; p_notes := None;
     p_createdAt := Some "1999-01-01T00:00:00.000Z";
     p_updatedAt := Some "1999-01-01T00:00:00.000Z";
     p_dueDate := Some (Some "1970-01-03"); p_dueTime := None;
     p_scheduledDate := None; p_scheduledTime := None;
     p_timeZone := Some "Asia/Tokyo"; p_estimatedMinutes := None;
     p_priority := Some (Some high); p_pomodoroCount := Some 7;
     p_completed := Some true;
     p_completedAt := Some (Some "1999-01-01T00:00:00.000Z");
     p_order := Some 40 |}.

(** The same request without the ignored keys. *)
Definition modest : PartialTask :=
  {| p_id := None; p_title := Some "Essay";
     p_type := Some homework; p_subject := None; p_notes := None;
     p_createdAt := None; p_updatedAt := None;
     p_dueDate := Some (Some "1970-01-03"); p_dueTime := None;
     p_scheduledDate := None; p_scheduledTime := None;
     p_timeZone := None; p_estimatedMinutes := None;
     p_priority := Some (Some high); p_pomodoroCount := None;
     p_completed := None; p_completedAt := None; p_order := None |}.

(** A patch that sets [completed] and nothing else. *)
Definition mark_completed : PartialTask :=
  {| p_id := None; p_title := None; p_type := None;
     p_subject := None; p_notes := None; p_createdAt := None;
     p_updatedAt := None; p_dueDate := None; p_dueTime := None;
     p_scheduledDate := None; p_scheduledTime := None;
     p_timeZone := None; p_estimatedMinutes := None;
     p_priority := None; p_pomodoroCount := None;
     p_completed := Some true; p_completedAt := None;
     p_order := None |}.

(** An environment whose write fails. *)
Definition failing_env : Env :=
  mkEnv "1970-01-01T12:00:00.000Z" "id-99" "UTC" false.

(** The store after two creations. *)
Definition two_tasks : Store := exec (creates 0 2) (initial []).

(** The first task created, then completed at 09:00. *)
Definition one_completed : Store :=
  exec [ OCreate (nth_env 0) emptyPartial;
         OToggle "1970-01-01T09:00:00.000Z" (nth_env 1) "id-00" ]
       (initial []).

(** Create a task, then mark it completed with a direct update. *)
Definition create_then_mark : list Op :=
  [ OCreate (nth_env 0) emptyPartial;
    OUpdate (nth_env 1) "id-00" mark_completed ].

(** Two creations, a toggle, an update, an undo, a reload. *)
Definition toggled_run : list Op :=
  (creates 0 2 ++
   [ OToggle "1970-01-01T09:00:00.000Z" (nth_env 2) "id-00";
     OUpdate (nth_env 3) "id-01" retitle;
     OUndo true;
     OInit true ])%list.

(** ** More of [dateUtils.ts] *)

(** [`${n}`] for an integral number. *)
Definition toString (n : Z) : string := NilZero.string_of_int (Z.to_int n).

(** Relative time, e.g. "in 2h" or "2d ago"; [Math.floor] is applied to
    non-negative quotients only. *)
Definition formatRelativeTime (now date : Z) : string :=
  let minutes := differenceInMinutes date now in
  if minutes <? 0 then
    let absMinutes := Z.abs minutes in
    if absMinutes <? 60 then toString absMinutes ++ "m ago"
    else if absMinutes <? 1440 then toString (absMinutes / 60) ++ "h ago"
    else toString (absMinutes / 1440) ++ "d ago"
  else
    if minutes <? 60 then "in " ++ toString minutes ++ "m"
    else if minutes <? 1440 then "in " ++ toString (minutes / 60) ++ "h"
    else "in " ++ toString (minutes / 1440) ++ "d".

(** The three units of the labels and their length in minutes. *)
Inductive TimeUnit := Minutes | Hours | Days.

Definition unit_minutes (u : TimeUnit) : Z :=
  match u with
  | Minutes => 1
  | Hours => 60
  | Days => 1440
  end.

Definition unit_letter (u : TimeUnit) : string :=
  match u with
  | Minutes => "m"
  | Hours => "h"
  | Days => "d"
  end.

Definition label (past : bool) (n : Z) (u : TimeUnit) : string :=
  if past then toString n ++ unit_letter u ++ " ago"
  else "in " ++ toString n ++ unit_letter u.

(** A copy of a task with another due date and time. *)
Definition with_due (d t : option string) (task : Task) : Task :=
  {| id := id task; title := title task; type := type task;
     subject := subject task; notes := notes task;
     createdAt := createdAt task; updatedAt := updatedAt task;
     dueDate := d; dueTime := t;
     scheduledDate := scheduledDate task;
     scheduledTime := scheduledTime task;
     timeZone := timeZone task; estimatedMinutes := estimatedMinutes task;
     priority := priority task; pomodoroCount := pomodoroCount task;
     completed := completed task; completedAt := completedAt task;
     order := order task |}.

(** A copy of a task of another kind. *)
Definition with_type (k : TaskType) (task : Task) : Task :=
  {| id := id task; title := title task; type := k;
     subject := subject task; notes := notes task;
     createdAt := createdAt task; updatedAt := updatedAt task;
     dueDate := dueDate task; dueTime := dueTime task;
     scheduledDate := scheduledDate task;
     scheduledTime := scheduledTime task;
     timeZone := timeZone task; estimatedMinutes := estimatedMinutes task;
     priority := priority task; pomodoroCount := pomodoroCount task;
     completed := completed task; completedAt := completedAt task;
     order := order task |}.

(** [a] does not sort after [b] under a comparator: [cmp a b] is not
    positive. *)
Definition not_after {A} (cmp : A -> A -> number) (a b : A) : Prop :=
  number_pos (cmp a b) = false.

(** The values [getTaskUrgency] returns: a rational or +infinity. *)
Definition is_score (v : number) : Prop :=
  match v with
  | Num _ | Infinity => True
  | NegInfinity | NaN => False
  end.

(** ** More about the store *)

(** A call after which the collection and the records of the
    localStorage engine can still be compared entry by entry: its
    write goes through, a create draws an id no live task has, an
    update leaves the id alone; [undo] is left out.  A write that
    fails is left out too: the engine stores the array before it
    stamps the metadata, so a call can be rejected with its record
    already stored. *)
Definition mirrors (o : Op) (s : Store) : bool :=
  match o with
  | OInit _ => true
  | OCreate e _ => env_io e && negb (present (env_uuid e) (tasks s))
  | OUpdate e i updates => env_io e && keeps_id i updates
  | ORemove io _ => io
  | OToggle _ e _ => env_io e
  | OIncrement e _ => env_io e
  | OUndo _ => false
  | OClear => true
  end.

Fixpoint all_mirror (ops : list Op) (s : Store) : bool :=
  match ops with
  | [] => true
  | o :: rest => mirrors o s && all_mirror rest (step o s)
  end.

(** A task after [n] more pomodoros, last touched at [stamp]. *)
Definition bumped (n : Z) (stamp : string) (task : Task) : Task :=
  {| id := id task; title := title task; type := type task;
     subject := subject task; notes := notes task;
     createdAt := createdAt task; updatedAt := stamp;
     dueDate := dueDate task; dueTime := dueTime task;
     scheduledDate := scheduledDate task;
     scheduledTime := scheduledTime task;
     timeZone := timeZone task; estimatedMinutes := estimatedMinutes task;
     priority := priority task; pomodoroCount := pomodoroCount task + n;
     completed := completed task; completedAt := completedAt task;
     order := order task |}.

(** No nullable text field holds the empty string and the estimate is
    not zero. *)
Definition no_empty_text (x : option string) : Prop := x <> Some "".

Definition normalized (task : Task) : Prop :=
  truthy (title task) = true /\
  no_empty_text (subject task) /\ no_empty_text (notes task) /\
  no_empty_text (dueDate task) /\ no_empty_text (dueTime task) /\
  no_empty_text (scheduledDate task) /\
  no_empty_text (scheduledTime task) /\
  estimatedMinutes task <> Some 0.

(** The store after loading one persisted task. *)
Definition loaded_store : Store := fst (initStore true (initial [done_task])).

(** Calls of every kind but [undo], every write going through; the
    last load fails. *)
Definition mixed_run : list Op :=
  [ OCreate (nth_env 0) intrusive;
    OCreate (nth_env 1) modest;
    OUpdate (nth_env 2) "id-00" retitle;
    OUpdate (nth_env 3) "t-done" retitle;
    OToggle "1970-01-01T09:00:00.000Z" (nth_env 4) "id-00";
    OIncrement (nth_env 5) "id-00";
    OClear;
    ORemove true "t-done";
    OInit false ].

(** A patch that moves a task to position 2^53. *)
Definition move_far : PartialTask :=
  {| p_id := None; p_title := None; p_type := None;
     p_subject := None; p_notes := None; p_createdAt := None;
     p_updatedAt := None; p_dueDate := None; p_dueTime := None;
     p_scheduledDate := None; p_scheduledTime := None;
     p_timeZone := None; p_estimatedMinutes := None; p_priority := None;
     p_pomodoroCount := None; p_completed := None; p_completedAt := None;
     p_order := Some SAFE |}.

(** Two tasks, the second one moved to position 2^53. *)
Definition far_ordered : Store :=
  exec [OUpdate (nth_env 2) "id-01" move_far] two_tasks.

(** A patch that sets the pomodoro count to 2^53. *)
Definition count_far : PartialTask :=
  {| p_id := None; p_title := None; p_type := None;
     p_subject := None; p_notes := None; p_createdAt := None;
     p_updatedAt := None; p_dueDate := None; p_dueTime := None;
     p_scheduledDate := None; p_scheduledTime := None;
     p_timeZone := None; p_estimatedMinutes := None; p_priority := None;
     p_pomodoroCount := Some SAFE; p_completed := None;
     p_completedAt := None; p_order := None |}.

(** Integral doubles on both sides of the limits of [add_one]: for
    [j] from 0 to 99, the integers [j] away from 0 and from 2^53
    towards 0, the even ones [2 * j] away from 2^53 and from 2^54,
    the multiples of 4 beyond 2^54, and two powers of 2 further out,
    each with its opposite. *)
Definition add_one_samples : list Z :=
  flat_map
    (fun j => [ j; - j; SAFE - j; - SAFE + j;
                SAFE + 2 * j; - SAFE - 2 * j;
                2 * SAFE - 2 * j; - (2 * SAFE) + 2 * j;
                2 * SAFE + 4 * j; - (2 * SAFE) - 4 * j ])
    (map Z.of_nat (seq 0 100))
  ++ [ 2 ^ 56; - 2 ^ 56; 2 ^ 60; - 2 ^ 60 ].

(** Three pomodoros on the second task, at 11:00, 11:30 and 12:00. *)
Definition three_pomodoros : list Env :=
  [ mkEnv "1970-01-01T11:00:00.000Z" "" "UTC" true;
    mkEnv "1970-01-01T11:30:00.000Z" "" "UTC" true;
    mkEnv "1970-01-01T12:00:00.000Z" "" "UTC" true ].

(** ** [storage.ts] on the localStorage engine

    The branches taken when [storageEngine === 'localstorage'].  The
    two items are kept as the values they hold: [JSON.stringify]
    followed by [JSON.parse] gives back an array of tasks or a metadata
    object as it was (their fields are strings, integral numbers,
    booleans and null).  An item that was never set, or was removed, is
    [None].  [now] is the clock reading of the call. *)

Module LocalStorage.

Record StorageMetadata := mkMetadata {
  schemaVersion : Z;
  lastModified : string
}.

Definition CURRENT_SCHEMA_VERSION : Z := 1.

Record Items := mkItems {
  planner_tasks : option (list Task);
  planner_meta : option StorageMetadata
}.

Definition getAllTasks (ls : Items) : list Task :=
  match planner_tasks ls with
  | Some data => data
  | None => []
  end.

Definition getMetadata (now : string) (ls : Items) : StorageMetadata :=
  match planner_meta ls with
  | Some data => data
  | None => mkMetadata CURRENT_SCHEMA_VERSION now
  end.

Definition updateMetadata (now : string) (ls : Items) : Items :=
  mkItems (planner_tasks ls)
          (Some (mkMetadata CURRENT_SCHEMA_VERSION now)).

Definition saveTask (now : string) (task : Task) (ls : Items) : Items :=
  let tasks := getAllTasks ls in
  let tasks :=
    match findIndex (has_id (id task)) tasks with
    | Some index => set_nth index task tasks
    | None => (tasks ++ [task])%list
    end in
  updateMetadata now (mkItems (Some tasks) (planner_meta ls)).

Definition deleteTask (now : string) (i : string) (ls : Items) : Items :=
  let tasks := getAllTasks ls in
  let filtered := filter (fun t => negb (has_id i t)) tasks in
  updateMetadata now (mkItems (Some filtered) (planner_meta ls)).

(** The document [exportData] returns and [importData] takes. *)
Record Document := mkDocument {
  doc_tasks : list Task;
  doc_metadata : option StorageMetadata
}.

Definition exportData (now : string) (ls : Items) : Document :=
  let tasks := getAllTasks ls in
  let metadata := getMetadata now ls in
  mkDocument tasks (Some metadata).

Definition importData (data : Document) (ls : Items) : Items :=
  let ls := mkItems (Some (doc_tasks data)) (planner_meta ls) in
  match doc_metadata data with
  | Some metadata => mkItems (planner_tasks ls) (Some metadata)
  | None => ls
  end.

Definition clearAllData (ls : Items) : Items := mkItems None None.

End LocalStorage.

(** Items holding the two sample tasks of [two_tasks]. *)
Definition two_items : LocalStorage.Items :=
  LocalStorage.mkItems (Some (tasks two_tasks)) None.

(** ** The quick-add form ([components/QuickAdd.tsx]) and its handler
    in [components/Planner.tsx] *)

(** The signals of the form. *)
Record QuickAddForm := mkForm {
  f_title : string;
  f_type : TaskType;
  f_subject : string;
  f_notes : string;
  f_dueDate : string;
  f_dueTime : string;
  f_scheduledDate : string;
  f_scheduledTime : string;
  f_estimatedMinutes : option Z;
  f_priority : option Priority
}.

(** [x || null] on a string. *)
Definition or_null (x : string) : option string :=
  if truthy x then Some x else None.

Section QuickAdd.
(** [String.prototype.trim]. *)
Variable trim : string -> string.

(** [handleSubmit]: [None] when it returns without calling [onSave]. *)
Definition handleSubmit (f : QuickAddForm) : option PartialTask :=
  if negb (truthy (trim (f_title f))) then None
  else
    Some {| p_id := None;
            p_title := Some (trim (f_title f));
            p_type := Some (f_type f);
            p_subject := Some (or_null (trim (f_subject f)));
            p_notes := Some (or_null (trim (f_notes f)));
            p_createdAt := None; p_updatedAt := None;
            p_dueDate := Some (or_null (f_dueDate f));
            p_dueTime := Some (or_null (f_dueTime f));
            p_scheduledDate := Some (or_null (f_scheduledDate f));
            p_scheduledTime := Some (or_null (f_scheduledTime f));
            p_timeZone := None;
            p_estimatedMinutes := Some (f_estimatedMinutes f);
            p_priority := Some (f_priority f);
            p_pomodoroCount := None; p_completed := None;
            p_completedAt := None; p_order := None |}.

(** Submitting the form: [handleSubmit], then [handleQuickAdd] of the
    planner, which awaits [createTask]. *)
Definition submitQuickAdd (e : Env) (f : QuickAddForm)
  : Async (option Task) :=
  match handleSubmit f with
  | None => ret None
  | Some data => task <- createTask e data ;; ret (Some task)
  end.
End QuickAdd.

(** Trimming of blanks at both ends, for the examples. *)
Fixpoint trim_left (s : string) : string :=
  match s with
  | String " " rest => trim_left rest
  | _ => s
  end.

Fixpoint string_rev (s acc : string) : string :=
  match s with
  | EmptyString => acc
  | String c rest => string_rev rest (String c acc)
  end.

Definition trim_blanks (s : string) : string :=
  string_rev (trim_left (string_rev (trim_left s) "")) "".

Definition sample_form : QuickAddForm :=
  mkForm "  Read chapter 4 " homework "   " "" "1970-01-03" "" "" ""
         (Some 0) (Some high).

Definition blank_form : QuickAddForm :=
  mkForm "   " life "History" "" "" "" "" "" None None.

(** A task to save under the id of the second sample task. *)
Definition replacement : Task :=
  sample_task "id-01" (Some "1970-01-03") (Some "12:00").

(* ================================================================= *)
(** * Properties *)

(** ** Lists *)

Lemma sort_insert_perm {A} (cmp : A -> A -> number) (x : A) (l : list A) :
  Permutation (sort_insert cmp x l) (x :: l).
Proof.
  induction l as [|y l IH]; simpl.
  - apply Permutation_refl.
  - destruct (number_pos (cmp x y)).
    + apply perm_trans with (y :: x :: l).
      * now apply perm_skip.
      * apply perm_swap.
    + apply Permutation_refl.
Qed.

Lemma sort_perm {A} (cmp : A -> A -> number) (l : list A) :
  Permutation (sort cmp l) l.
Proof.
  induction l as [|x l IH]; simpl.
  - constructor.
  - eapply perm_trans; [apply sort_insert_perm|].
    now apply perm_skip.
Qed.

Lemma sort_In {A} (cmp : A -> A -> number) (l : list A) (x : A) :
  In x (sort cmp l) <-> In x l.
Proof.
  split; apply Permutation_in;
    [apply sort_perm | apply Permutation_sym, sort_perm].
Qed.

Lemma sort_length {A} (cmp : A -> A -> number) (l : list A) :
  List.length (sort cmp l) = List.length l.
Proof. apply Permutation_length, sort_perm. Qed.

(** ** The urgency engine *)

Section UrgencyFacts.
Variable toZonedTime : string -> string -> Z.
Variable startOfDay : Z -> Z.
Variable now : Z.

Lemma minutesUntilDue_spec_negative (dueInstant : Z) :
  (minutesUntilDue_spec now dueInstant < 0)%Q <-> dueInstant < now.
Proof.
  unfold minutesUntilDue_spec, Qlt, Qdiv, Qmult, Qinv, inject_Z. simpl.
  lia.
Qed.

(** C1. The score [getTaskUrgency] computes, by cases.  It is
    +infinity for a completed task and for one whose [dueDate] is null
    or empty.  Otherwise, with the due instant resolved from the date
    and the time (midnight when the time is null or empty), less than
    2^53 milliseconds from now, and [m] the minutes from now to it
    with the fraction of a minute dropped: the score is [m] when
    [m < 0], and the double product [(m * p) * k] when [0 <= m], where
    [p] is 0.5 (high), 1 (medium or none), 1.5 (low) and [k] is 0.9
    (homework), 1.1 (life). *)
Theorem urgency_score_by_cases (task : Task) :
  (completed task = true \/ dueDate task = None \/ dueDate task = Some "" ->
   getTaskUrgency_double toZonedTime now task = infinity) /\
  (forall date due m,
     completed task = false ->
     dueDate task = Some date -> date <> "" ->
     due = toZonedTime
             (date ++ "T" ++ clock_or_midnight (dueTime task) ++ ":00")
             (timeZone task) ->
     Z.abs (due - now) < SAFE ->
     m = Z.quot (due - now) 60000 ->
     (m < 0 ->
      getTaskUrgency_double toZonedTime now task = float_of_Z m) /\
     (0 <= m ->
      getTaskUrgency_double toZonedTime now task
      = (float_of_Z m * priorityMultiplier_double (priority task)
         * kindMultiplier_double (type task))%float)).
Proof.
  split.
  - intros [Hc | [Hd | Hd]]; unfold getTaskUrgency_double, getTaskDueDate.
    + now rewrite Hc.
    + rewrite Hd. now destruct (completed task).
    + rewrite Hd. now destruct (completed task).
  - intros date due m Hc Hd Hne Hdue _ Hm.
    assert (Hget : getTaskDueDate toZonedTime task = Some due).
    { unfold getTaskDueDate, combineDateAndTime. rewrite Hd.
      destruct date as [|c date]; [congruence|]. cbn [truthy].
      rewrite Hdue. destruct (dueTime task) as [[|c' t]|]; reflexivity. }
    unfold getTaskUrgency_double. rewrite Hc, Hget. cbv zeta.
    unfold differenceInMinutes, MINUTE_MS. rewrite <- Hm. split.
    + intros Hneg. apply Z.ltb_lt in Hneg. now rewrite Hneg.
    + intros Hpos. apply Z.ltb_ge in Hpos. rewrite Hpos.
      destruct (priority task) as [[ | | ]|], (type task); reflexivity.
Qed.

(** *** Priority and the score *)

Lemma getTaskUrgency_due (task : Task) (due : Z) :
  completed task = false ->
  getTaskDueDate toZonedTime task = Some due ->
  getTaskUrgency toZonedTime now task =
    let m := differenceInMinutes due now in
    if m <? 0 then Num (inject_Z m)
    else Num (inject_Z m
              * (if is_priority low (priority task) then 15 # 10
                 else if is_priority high (priority task) then 5 # 10
                 else 1)
              * match type task with
                | homework => 9 # 10
                | life => 11 # 10
                end)%Q.
Proof.
  intros Hc Hd. unfold getTaskUrgency. rewrite Hc, Hd. cbv zeta.
  destruct (differenceInMinutes due now <? 0); [reflexivity|].
  destruct (priority task) as [[ | | ]|]; reflexivity.
Qed.

(** C7, amended. Two tasks that differ only in priority, not
    completed, with the same due instant: when the due instant is at
    least one whole minute ahead, the high-priority task scores
    strictly less than the low-priority one; when it is overdue or
    due within the current minute, the two scores are equal. *)
Theorem high_priority_scores_lower (task : Task) (due : Z) :
  completed task = false ->
  getTaskDueDate toZonedTime task = Some due ->
  (0 < differenceInMinutes due now ->
     number_lt
       (getTaskUrgency toZonedTime now (with_priority (Some high) task))
       (getTaskUrgency toZonedTime now (with_priority (Some low) task)))
  /\
  (differenceInMinutes due now <= 0 ->
     number_eq
       (getTaskUrgency toZonedTime now (with_priority (Some high) task))
       (getTaskUrgency toZonedTime now (with_priority (Some low) task))).
Proof.
  intros Hc Hd.
  assert (Hh := getTaskUrgency_due (with_priority (Some high) task) due Hc Hd).
  assert (Hl := getTaskUrgency_due (with_priority (Some low) task) due Hc Hd).
  rewrite Hh, Hl. clear Hh Hl. cbv zeta. simpl.
  set (m := differenceInMinutes due now).
  split; intros Hm.
  - destruct (Z.ltb_spec m 0) as [Hneg|_]; [lia|].
    destruct (type task); simpl; unfold Qlt; simpl; lia.
  - destruct (Z.ltb_spec m 0) as [_|Hpos].
    + simpl. reflexivity.
    + assert (m = 0) as -> by lia.
      destruct (type task); simpl; reflexivity.
Qed.

End UrgencyFacts.

(** A task with its due instant ahead by a week, at the instant 0. *)
(** Due in a week, high priority, homework: 10080 minutes, halved,
    times 0.9. *)
Lemma urgency_score_by_cases_witness :
  getTaskUrgency_double utc_toZonedTime 0
    (with_priority (Some high) due_in_a_week) = 4536%float.
Proof.
  destruct (urgency_score_by_cases utc_toZonedTime 0
              (with_priority (Some high) due_in_a_week)) as [_ H].
  destruct (H "1970-01-08" 604800000 10080 eq_refl eq_refl) as [_ Hpos].
  - discriminate.
  - reflexivity.
  - reflexivity.
  - reflexivity.
  - rewrite Hpos by discriminate. vm_compute. reflexivity.
Defined.

(** Three minutes ahead, no priority, a life task: the product
    3 * 1 * 1.1 as the doubles give it. *)
#[warnings="-inexact-float"]
Example three_minutes_ahead_score :
  getTaskUrgency_double utc_toZonedTime 604620000
    (with_type life due_in_a_week) = 3.3000000000000003%float.
Proof. vm_compute. reflexivity. Qed.

Example five_minutes_late_score :
  getTaskUrgency_double utc_toZonedTime 0
    (with_priority (Some high) due_five_minutes_ago) = (-5)%float.
Proof. vm_compute. reflexivity. Qed.

Example completed_task_score :
  getTaskUrgency_double utc_toZonedTime 0 done_task = infinity.
Proof. vm_compute. reflexivity. Qed.

(** C1 as stated fails on a task half a minute past due.  It is
    overdue and the specification's score for it is the negative
    number -1/2; the code's minute count drops the half minute, finds
    0, which is not below 0, and scores the task 0. *)
Lemma half_minute_overdue_scores_zero :
  completed due_at_epoch = false /\
  isTaskOverdue utc_toZonedTime 30000 due_at_epoch = true /\
  number_eq (urgencyScore_spec utc_toZonedTime 30000 due_at_epoch)
            (Num (- (1 # 2))) /\
  getTaskUrgency_double utc_toZonedTime 30000 due_at_epoch = 0%float /\
  number_eq (getTaskUrgency utc_toZonedTime 30000 due_at_epoch) (Num 0) /\
  ~ number_eq (getTaskUrgency utc_toZonedTime 30000 due_at_epoch)
              (urgencyScore_spec utc_toZonedTime 30000 due_at_epoch).
Proof.
  split; [reflexivity|]. split; [reflexivity|].
  split; [vm_compute; reflexivity|]. split; [vm_compute; reflexivity|].
  split; [vm_compute; reflexivity|]. vm_compute. discriminate.
Qed.

Lemma high_priority_scores_lower_witness :
  number_lt
    (getTaskUrgency utc_toZonedTime 0 (with_priority (Some high) due_in_a_week))
    (getTaskUrgency utc_toZonedTime 0 (with_priority (Some low) due_in_a_week)).
Proof.
  apply (proj1 (high_priority_scores_lower utc_toZonedTime 0 due_in_a_week
                  604800000 eq_refl eq_refl)).
  reflexivity.
Defined.

(** C7 as stated fails on an overdue task: five minutes past due, the
    high-priority and the low-priority copy both score -5. *)
Lemma overdue_scores_ignore_priority :
  completed due_five_minutes_ago = false /\
  getTaskDueDate utc_toZonedTime due_five_minutes_ago = Some (-300000) /\
  getTaskUrgency utc_toZonedTime 0
    (with_priority (Some high) due_five_minutes_ago) = Num (inject_Z (-5)) /\
  getTaskUrgency utc_toZonedTime 0
    (with_priority (Some low) due_five_minutes_ago) = Num (inject_Z (-5)) /\
  ~ number_lt
      (getTaskUrgency utc_toZonedTime 0
         (with_priority (Some high) due_five_minutes_ago))
      (getTaskUrgency utc_toZonedTime 0
         (with_priority (Some low) due_five_minutes_ago)).
Proof.
  repeat split.
  vm_compute. intros H. discriminate H.
Qed.

(** ** Grouping into buckets *)

Section GroupingFacts.
Variable toZonedTime : string -> string -> Z.
Variable startOfDay : Z -> Z.
Variable now : Z.

Lemma Bucket_eq_dec (a b : Bucket) : {a = b} + {a <> b}.
Proof. decide equality. Qed.

(** One turn of the loop pushes a live task to the array of its
    bucket and to no other. *)
Lemma groupLoop_cons (t : Task) (rest : list Task) (g : Groups) :
  groupLoop toZonedTime startOfDay now (t :: rest) g =
    if completed t then groupLoop toZonedTime startOfDay now rest g
    else match bucketOf toZonedTime startOfDay now t with
         | BUrgent =>
             groupLoop toZonedTime startOfDay now rest
               (mkGroups (urgent g ++ [t]) (today g) (upcoming g) (someday g))
         | BToday =>
             groupLoop toZonedTime startOfDay now rest
               (mkGroups (urgent g) (today g ++ [t]) (upcoming g) (someday g))
         | BUpcoming =>
             groupLoop toZonedTime startOfDay now rest
               (mkGroups (urgent g) (today g) (upcoming g ++ [t]) (someday g))
         | BSomeday =>
             groupLoop toZonedTime startOfDay now rest
               (mkGroups (urgent g) (today g) (upcoming g) (someday g ++ [t]))
         end.
Proof.
  simpl. destruct (completed t); [reflexivity|].
  unfold bucketOf, dueUrgent, isTaskScheduledToday, dueWithinWeek.
  destruct (getTaskDueDate toZonedTime t) as [d|];
    destruct (getTaskScheduledDate toZonedTime t) as [sd|];
    repeat match goal with
           | |- context [if ?c then _ else _] => destruct c
           end; reflexivity.
Qed.

Lemma groupLoop_In (ts : list Task) (g : Groups) (b : Bucket) (t : Task) :
  In t (bucket_list b (groupLoop toZonedTime startOfDay now ts g)) <->
  In t (bucket_list b g) \/
  (In t ts /\ completed t = false /\ bucketOf toZonedTime startOfDay now t = b).
Proof.
  revert g. induction ts as [|x rest IH]; intros g.
  - simpl. tauto.
  - rewrite groupLoop_cons.
    destruct (completed x) eqn:Hx.
    + rewrite IH. simpl. split; [tauto|].
      intros [H|[[->|H] [Hc Hb]]]; [tauto|congruence|tauto].
    + destruct (bucketOf toZonedTime startOfDay now x) eqn:Hb; rewrite IH;
        destruct b; simpl; rewrite ?in_app_iff; simpl;
        intuition (subst; auto; congruence).
Qed.

Lemma groupLoop_filter (ts : list Task) (g : Groups) (b : Bucket) :
  bucket_list b (groupLoop toZonedTime startOfDay now ts g)
  = (bucket_list b g
     ++ filter (goes_to toZonedTime startOfDay now b) ts)%list.
Proof.
  revert g. induction ts as [|x rest IH]; intros g.
  - simpl. now rewrite app_nil_r.
  - rewrite groupLoop_cons. unfold goes_to at 1. simpl filter.
    destruct (completed x) eqn:Hx; simpl.
    + apply IH.
    + destruct (bucketOf toZonedTime startOfDay now x) eqn:Hb;
        rewrite IH; destruct b; simpl; rewrite <- ?app_assoc; reflexivity.
Qed.

Lemma groupLoop_length (ts : list Task) (g : Groups) :
  (List.length (urgent (groupLoop toZonedTime startOfDay now ts g))
   + List.length (today (groupLoop toZonedTime startOfDay now ts g))
   + List.length (upcoming (groupLoop toZonedTime startOfDay now ts g))
   + List.length (someday (groupLoop toZonedTime startOfDay now ts g))
   + List.length (filter completed ts)
   = List.length (urgent g) + List.length (today g)
     + List.length (upcoming g) + List.length (someday g)
     + List.length ts)%nat.
Proof.
  revert g. induction ts as [|x rest IH]; intros g.
  - simpl. lia.
  - rewrite groupLoop_cons. simpl filter.
    destruct (completed x).
    + specialize (IH g). simpl. lia.
    + destruct (bucketOf toZonedTime startOfDay now x);
        match goal with
        | |- context [groupLoop _ _ _ rest ?g'] => specialize (IH g')
        end; simpl in IH; rewrite ?length_app in IH; simpl in *; lia.
Qed.

Lemma grouped_In (ts : list Task) (b : Bucket) (t : Task) :
  In t (bucket_list b (groupTasksByUrgency toZonedTime startOfDay now ts)) <->
  In t ts /\ completed t = false /\ bucketOf toZonedTime startOfDay now t = b.
Proof.
  unfold groupTasksByUrgency.
  assert (H : In t (bucket_list b
                      (groupLoop toZonedTime startOfDay now ts
                                 (mkGroups [] [] [] []))) <->
              In t ts /\ completed t = false /\
              bucketOf toZonedTime startOfDay now t = b).
  { rewrite groupLoop_In. destruct b; simpl; tauto. }
  rewrite <- H. destruct b; simpl; apply sort_In.
Qed.

(** C4. [groupTasksByUrgency] puts every non-completed task of the
    input in exactly one of the four buckets, leaves every completed
    task out of all of them, and the buckets together hold as many
    tasks as the input has non-completed ones (each bucket is an
    arrangement of the input tasks whose first passing test is that
    bucket's); the tests run in order
    and the first that holds decides, so a task that is overdue and
    scheduled for today is in [urgent] and not in [today]. *)
Theorem groupTasksByUrgency_partitions (ts : list Task) :
  let g := groupTasksByUrgency toZonedTime startOfDay now ts in
  (forall b, Permutation (bucket_list b g)
                         (filter (goes_to toZonedTime startOfDay now b) ts))
  /\
  (forall t, In t ts -> completed t = false ->
     exists b, In t (bucket_list b g) /\
               forall b', In t (bucket_list b' g) -> b' = b)
  /\ (forall t b, completed t = true -> ~ In t (bucket_list b g))
  /\ (forall t b, In t (bucket_list b g) -> In t ts)
  /\ (List.length (urgent g) + List.length (today g)
      + List.length (upcoming g) + List.length (someday g)
      = List.length ts - List.length (filter completed ts))%nat
  /\ (forall t, In t ts ->
        isTaskOverdue toZonedTime now t = true ->
        isTaskScheduledToday toZonedTime startOfDay now t = true ->
        In t (urgent g) /\ ~ In t (today g)).
Proof.
  cbv zeta. split; [|repeat split].
  - intros b.
    pose proof (groupLoop_filter ts (mkGroups [] [] [] []) b) as H.
    unfold groupTasksByUrgency.
    destruct b; simpl in H |- *; rewrite <- H; apply sort_perm.
  - intros t Hin Hc. exists (bucketOf toZonedTime startOfDay now t). split.
    + apply grouped_In. auto.
    + intros b' Hb'. apply grouped_In in Hb'.
      symmetry. apply Hb'.
  - intros t b Hc Hin. apply grouped_In in Hin.
    destruct Hin as (_ & Hc' & _). congruence.
  - intros t b Hin. apply grouped_In in Hin. apply Hin.
  - unfold groupTasksByUrgency. simpl.
    rewrite !sort_length.
    pose proof (groupLoop_length ts (mkGroups [] [] [] [])) as H.
    simpl in H. lia.
  - apply (grouped_In ts BUrgent).
    unfold isTaskOverdue in H0.
    destruct (completed t) eqn:Hc; [discriminate|].
    repeat split; auto.
    unfold bucketOf, dueUrgent.
    destruct (getTaskDueDate toZonedTime t); [|discriminate].
    now rewrite H0.
  - intros Hin. apply (grouped_In ts BToday) in Hin.
    destruct Hin as (_ & Hc & Hb).
    unfold isTaskOverdue in H0. rewrite Hc in H0.
    unfold bucketOf, dueUrgent in Hb.
    destruct (getTaskDueDate toZonedTime t); [|discriminate].
    rewrite H0 in Hb. discriminate.
Qed.

(** C5, amended. A non-completed task that is not overdue, not due
    today and not scheduled for today, and whose due instant is
    exactly 7 x 24 x 60 minutes after now, is in [someday] and not in
    [upcoming]: the test is a strict "less than".  Such a task is in
    [upcoming] when fewer than 7 x 24 x 60 whole minutes separate now
    from its due instant. *)
Theorem week_boundary_bucket (ts : list Task) (t : Task) (due : Z) :
  In t ts ->
  completed t = false ->
  getTaskDueDate toZonedTime t = Some due ->
  isPast now due = false ->
  isToday startOfDay now due = false ->
  isTaskScheduledToday toZonedTime startOfDay now t = false ->
  (due = now + WEEK_MINUTES * MINUTE_MS ->
     In t (someday (groupTasksByUrgency toZonedTime startOfDay now ts)) /\
     ~ In t (upcoming (groupTasksByUrgency toZonedTime startOfDay now ts)))
  /\ (differenceInMinutes due now < WEEK_MINUTES ->
        In t (upcoming (groupTasksByUrgency toZonedTime startOfDay now ts)))
  /\ (WEEK_MINUTES <= differenceInMinutes due now ->
        In t (someday (groupTasksByUrgency toZonedTime startOfDay now ts))).
Proof.
  intros Hin Hc Hd Hp Ht Hs.
  assert (Hb : bucketOf toZonedTime startOfDay now t =
               if differenceInMinutes due now <? WEEK_MINUTES
               then BUpcoming else BSomeday).
  { unfold bucketOf, dueUrgent, dueWithinWeek.
    rewrite Hd, Hp, Ht, Hs. reflexivity. }
  repeat split.
  - apply (grouped_In ts BSomeday). repeat split; auto.
    rewrite Hb. subst due. unfold differenceInMinutes.
    replace (now + WEEK_MINUTES * MINUTE_MS - now)
      with (WEEK_MINUTES * MINUTE_MS) by lia.
    reflexivity.
  - intros Hup. apply (grouped_In ts BUpcoming) in Hup.
    destruct Hup as (_ & _ & Hb'). rewrite Hb in Hb'.
    subst due. unfold differenceInMinutes in Hb'.
    replace (now + WEEK_MINUTES * MINUTE_MS - now)
      with (WEEK_MINUTES * MINUTE_MS) in Hb' by lia.
    discriminate Hb'.
  - intros Hlt. apply (grouped_In ts BUpcoming). repeat split; auto.
    rewrite Hb. apply Z.ltb_lt in Hlt. now rewrite Hlt.
  - intros Hge. apply (grouped_In ts BSomeday). repeat split; auto.
    rewrite Hb. apply Z.ltb_ge in Hge. now rewrite Hge.
Qed.

End GroupingFacts.

(** The sample list at the instant 0 (1970-01-01T00:00Z), UTC days. *)
Example sample_tasks_grouped :
  groupTasksByUrgency utc_toZonedTime utc_startOfDay 0 sample_tasks
  = mkGroups [late_and_scheduled] [] [due_in_two_days] [due_in_a_week].
Proof. vm_compute. reflexivity. Qed.

Lemma groupTasksByUrgency_partitions_witness :
  In late_and_scheduled
     (urgent (groupTasksByUrgency utc_toZonedTime utc_startOfDay 0
                                  sample_tasks)) /\
  ~ In late_and_scheduled
       (today (groupTasksByUrgency utc_toZonedTime utc_startOfDay 0
                                   sample_tasks)).
Proof.
  apply (proj2 (proj2 (proj2 (proj2 (proj2
           (groupTasksByUrgency_partitions utc_toZonedTime utc_startOfDay 0
              sample_tasks)))))).
  - simpl. tauto.
  - reflexivity.
  - reflexivity.
Defined.

Lemma week_boundary_bucket_witness :
  In due_in_a_week
     (someday (groupTasksByUrgency utc_toZonedTime utc_startOfDay 0
                                   sample_tasks)) /\
  ~ In due_in_a_week
       (upcoming (groupTasksByUrgency utc_toZonedTime utc_startOfDay 0
                                      sample_tasks)).
Proof.
  apply (proj1 (week_boundary_bucket utc_toZonedTime utc_startOfDay 0
                  sample_tasks due_in_a_week 604800000
                  (or_introl eq_refl) eq_refl eq_refl eq_refl eq_refl
                  eq_refl)).
  reflexivity.
Defined.

(** C5 as stated fails: the task due exactly 7 x 24 x 60 minutes after
    the instant 0, not overdue, not due today, not scheduled for today,
    is grouped under [someday]; [upcoming] stays empty. *)
Lemma due_in_exactly_a_week_not_upcoming :
  completed due_in_a_week = false /\
  getTaskDueDate utc_toZonedTime due_in_a_week
    = Some (0 + 7 * 24 * 60 * MINUTE_MS) /\
  isPast 0 (0 + 7 * 24 * 60 * MINUTE_MS) = false /\
  isToday utc_startOfDay 0 (0 + 7 * 24 * 60 * MINUTE_MS) = false /\
  isTaskScheduledToday utc_toZonedTime utc_startOfDay 0 due_in_a_week
    = false /\
  groupTasksByUrgency utc_toZonedTime utc_startOfDay 0 [due_in_a_week]
    = mkGroups [] [] [] [due_in_a_week] /\
  ~ In due_in_a_week
       (upcoming (groupTasksByUrgency utc_toZonedTime utc_startOfDay 0
                                      [due_in_a_week])).
Proof.
  repeat split. intros H. exact H.
Qed.

(** ** Arrays *)

Section ArrayFacts.
Context {A : Type}.
Implicit Types (p : A -> bool) (l : list A).

Lemma findIndex_split p l i :
  findIndex p l = Some i ->
  exists l1 y l2,
    l = (l1 ++ y :: l2)%list /\ List.length l1 = i /\ p y = true /\
    (forall z, In z l1 -> p z = false) /\
    nth_error l i = Some y /\
    forall x, set_nth i x l = (l1 ++ x :: l2)%list.
Proof.
  revert i. induction l as [|a l IH]; intros i H; simpl in H.
  - discriminate.
  - destruct (p a) eqn:Hpa.
    + injection H as <-. exists [], a, l. simpl. repeat split; auto.
      intros z [].
    + destruct (findIndex p l) as [j|] eqn:Hj; [|discriminate].
      injection H as <-.
      destruct (IH j eq_refl) as (l1 & y & l2 & -> & Hlen & Hy & Hl1 & Hn & Hs).
      exists (a :: l1), y, l2. simpl. repeat split; auto.
      * intros z [<-|Hz]; auto.
      * intros x. now rewrite Hs.
Qed.

Lemma findIndex_None p l :
  findIndex p l = None <-> existsb p l = false.
Proof.
  induction l as [|a l IH]; simpl.
  - tauto.
  - destruct (p a); simpl.
    + split; discriminate.
    + rewrite <- IH. destruct (findIndex p l); split; congruence.
Qed.

Lemma findIndex_present p l :
  existsb p l = true -> exists i, findIndex p l = Some i.
Proof.
  intros H. destruct (findIndex p l) as [i|] eqn:E; [eauto|].
  apply findIndex_None in E. congruence.
Qed.

Lemma find_findIndex p l i y :
  findIndex p l = Some i -> nth_error l i = Some y -> find p l = Some y.
Proof.
  revert i. induction l as [|a l IH]; intros i H Hn; simpl in *.
  - discriminate.
  - destruct (p a).
    + injection H as <-. simpl in Hn. congruence.
    + destruct (findIndex p l) as [j|]; [|discriminate].
      injection H as <-. simpl in Hn. eauto.
Qed.

Lemma find_None_findIndex p l :
  find p l = None <-> findIndex p l = None.
Proof.
  induction l as [|a l IH]; simpl.
  - tauto.
  - destruct (p a).
    + split; discriminate.
    + rewrite IH. destruct (findIndex p l); split; congruence.
Qed.

Lemma pop_snoc l (x : A) : pop (l ++ [x]) = Some (l, x).
Proof.
  induction l as [|a l IH]; simpl.
  - reflexivity.
  - now rewrite IH.
Qed.

Lemma pop_nil_iff l : pop l = None <-> l = [].
Proof.
  destruct l as [|a l]; simpl.
  - tauto.
  - destruct (pop l) as [[r y]|]; split; discriminate.
Qed.

Lemma filter_all p l :
  (forall x, In x l -> p x = true) -> filter p l = l.
Proof.
  intros H. apply forallb_filter_id. apply forallb_forall. exact H.
Qed.

Lemma filter_perm p l l' :
  Permutation l l' -> Permutation (filter p l) (filter p l').
Proof.
  induction 1 as [|x l l' _ IH|x y l|l l' l'' _ IH1 _ IH2]; simpl.
  - constructor.
  - destruct (p x); [now constructor|assumption].
  - destruct (p x), (p y); try apply Permutation_refl. apply perm_swap.
  - eapply perm_trans; eassumption.
Qed.

Lemma map_set_nth {B} (f : A -> B) i (x : A) l y :
  nth_error l i = Some y -> f x = f y -> map f (set_nth i x l) = map f l.
Proof.
  revert i. induction l as [|a l IH]; intros [|i] Hn Hf; simpl in *;
    try discriminate.
  - injection Hn as ->. now rewrite Hf.
  - f_equal. eauto.
Qed.

Lemma NoDup_map_inj {B} (f : A -> B) l (a b : A) :
  NoDup (map f l) -> In a l -> In b l -> f a = f b -> a = b.
Proof.
  induction l as [|x l IH]; simpl; intros Hnd Ha Hb Hf.
  - contradiction.
  - inversion Hnd as [|? ? Hx Hnd']; subst.
    destruct Ha as [->|Ha], Hb as [->|Hb]; auto.
    + exfalso. apply Hx. rewrite Hf. now apply in_map.
    + exfalso. apply Hx. rewrite <- Hf. now apply in_map.
Qed.
End ArrayFacts.

(** ** The bounded history *)

Lemma pushAction_skipn (a : UndoAction) (st : list UndoAction) :
  (List.length st <= MAX_UNDO_STACK)%nat ->
  pushAction a st
  = skipn (List.length st + 1 - MAX_UNDO_STACK) (st ++ [a])%list.
Proof.
  intros H. unfold pushAction. rewrite length_app. simpl List.length.
  destruct (Nat.ltb_spec MAX_UNDO_STACK (List.length st + 1)) as [Hlt|Hge].
  - replace (List.length st + 1 - MAX_UNDO_STACK)%nat with 1%nat by lia.
    destruct st; reflexivity.
  - replace (List.length st + 1 - MAX_UNDO_STACK)%nat with 0%nat by lia.
    reflexivity.
Qed.

Lemma pushAction_length (a : UndoAction) (st : list UndoAction) :
  (List.length st <= MAX_UNDO_STACK)%nat ->
  List.length (pushAction a st)
  = Nat.min (List.length st + 1) MAX_UNDO_STACK.
Proof.
  intros H. rewrite pushAction_skipn by assumption.
  rewrite length_skipn, length_app. simpl. lia.
Qed.

Lemma pushAction_full (a : UndoAction) (st : list UndoAction) :
  List.length st = MAX_UNDO_STACK ->
  pushAction a st = (tl st ++ [a])%list.
Proof.
  intros H. unfold pushAction. rewrite length_app, H. simpl.
  destruct st; [discriminate|reflexivity].
Qed.

Lemma pushAction_room (a : UndoAction) (st : list UndoAction) :
  (List.length st < MAX_UNDO_STACK)%nat ->
  pushAction a st = (st ++ [a])%list.
Proof.
  intros H. unfold pushAction. rewrite length_app. simpl List.length.
  destruct (Nat.ltb_spec MAX_UNDO_STACK (List.length st + 1)); [lia|].
  reflexivity.
Qed.

(** ** What each call of the store computes *)

Lemma createTask_resolved (e : Env) (data : PartialTask) (s : Store) :
  env_io e = true ->
  createTask e data s =
    let task := newTask e data (tasks s) in
    (mkStore (tasks s ++ [task]) (loading s)
             (pushAction (mkAction create task None) (undoStack s))
             (put task (db s)),
     Resolved task).
Proof.
  intros Hio. unfold createTask, bind, getTasks, saveTask, setTasks,
    addToUndoStack, ret. rewrite Hio. reflexivity.
Qed.

Lemma createTask_rejected (e : Env) (data : PartialTask) (s : Store) :
  env_io e = false -> createTask e data s = (s, Rejected).
Proof.
  intros Hio. unfold createTask, bind, getTasks, saveTask.
  rewrite Hio. reflexivity.
Qed.

Lemma updateTask_absent (e : Env) (i : string) (u : PartialTask) (s : Store) :
  present i (tasks s) = false -> updateTask e i u s = (s, Resolved None).
Proof.
  intros H. apply findIndex_None in H.
  unfold updateTask, bind, getTasks. rewrite H. reflexivity.
Qed.

Lemma updateTask_resolved (e : Env) (i : string) (u : PartialTask)
      (s : Store) (index : nat) (previous : Task) :
  env_io e = true ->
  findIndex (has_id i) (tasks s) = Some index ->
  nth_error (tasks s) index = Some previous ->
  updateTask e i u s =
    let updatedTask := merged previous u (env_now e) in
    (mkStore (set_nth index updatedTask (tasks s)) (loading s)
             (pushAction (mkAction update updatedTask (Some previous))
                         (undoStack s))
             (put updatedTask (db s)),
     Resolved (Some updatedTask)).
Proof.
  intros Hio Hi Hn. unfold updateTask, bind, getTasks. rewrite Hi, Hn.
  unfold saveTask, setTasks, addToUndoStack, ret. rewrite Hio. reflexivity.
Qed.

Lemma updateTask_rejected (e : Env) (i : string) (u : PartialTask)
      (s : Store) :
  env_io e = false ->
  fst (updateTask e i u s) = s /\
  (present i (tasks s) = true -> snd (updateTask e i u s) = Rejected).
Proof.
  intros Hio. unfold updateTask, bind, getTasks.
  destruct (findIndex (has_id i) (tasks s)) as [index|] eqn:Hi.
  - destruct (findIndex_split _ _ _ Hi)
      as (l1 & y & l2 & _ & _ & _ & _ & Hn & _).
    rewrite Hn. unfold saveTask. rewrite Hio. auto.
  - apply findIndex_None in Hi. unfold present. rewrite Hi.
    split; [reflexivity|discriminate].
Qed.

Lemma removeTask_absent (io : bool) (i : string) (s : Store) :
  present i (tasks s) = false -> removeTask io i s = (s, Resolved tt).
Proof.
  intros H. apply findIndex_None, find_None_findIndex in H.
  unfold removeTask, bind, getTasks. rewrite H. reflexivity.
Qed.

Lemma removeTask_resolved (i : string) (s : Store) (task : Task) :
  find (has_id i) (tasks s) = Some task ->
  removeTask true i s =
    (mkStore (filter (fun t => negb (has_id i t)) (tasks s)) (loading s)
             (pushAction (mkAction delete task None) (undoStack s))
             (filter (fun t => negb (has_id i t)) (db s)),
     Resolved tt).
Proof.
  intros Hf. unfold removeTask, bind, getTasks. rewrite Hf. reflexivity.
Qed.

Lemma removeTask_rejected (i : string) (s : Store) :
  fst (removeTask false i s) = s /\
  (present i (tasks s) = true -> snd (removeTask false i s) = Rejected).
Proof.
  unfold removeTask, bind, getTasks.
  destruct (find (has_id i) (tasks s)) as [task|] eqn:Hf.
  - simpl. auto.
  - apply find_None_findIndex, findIndex_None in Hf. unfold present.
    rewrite Hf. split; [reflexivity|discriminate].
Qed.

(** [toggleTaskCompletion] and [incrementPomodoro] are [updateTask] with
    a patch computed from the task found. *)
Lemma toggle_is_update (stamp : string) (e : Env) (i : string) (s : Store)
      (task : Task) :
  find (has_id i) (tasks s) = Some task ->
  fst (toggleTaskCompletion stamp e i s)
  = fst (updateTask e i (toggle_patch stamp task) s).
Proof.
  intros Hf. unfold toggleTaskCompletion, bind at 1, getTasks. rewrite Hf.
  cbv zeta. unfold bind, ret.
  destruct (updateTask e i (toggle_patch stamp task) s) as [s' [r|]];
    reflexivity.
Qed.

Lemma increment_is_update (e : Env) (i : string) (s : Store) (task : Task) :
  find (has_id i) (tasks s) = Some task ->
  fst (incrementPomodoro e i s)
  = fst (updateTask e i (pomodoro_patch task) s).
Proof.
  intros Hf. unfold incrementPomodoro, bind at 1, getTasks. rewrite Hf.
  cbv zeta. unfold bind, ret.
  destruct (updateTask e i (pomodoro_patch task) s) as [s' [r|]];
    reflexivity.
Qed.

Lemma undo_empty (io : bool) (s : Store) :
  undoStack s = [] -> undo io s = (s, Resolved tt).
Proof.
  intros H. unfold undo, bind, popAction. rewrite H. reflexivity.
Qed.

Lemma undo_top (s : Store) (st : list UndoAction) (a : UndoAction) :
  undoStack s = (st ++ [a])%list ->
  exists records,
    undo true s
    = (mkStore (undone a (tasks s)) (loading s) st records, Resolved tt).
Proof.
  intros H. unfold undo, popAction, getTasks, bind at 1. rewrite H, pop_snoc.
  unfold undone, bind, saveTask, deleteTask, setTasks, ret. cbn [tasks].
  destruct (action_type a), (previousTask a) as [previous|];
    try (eexists; reflexivity).
  destruct (findIndex (has_id (id previous)) (tasks s));
    eexists; reflexivity.
Qed.

(** ** One mutation and its inverse *)

Lemma has_id_eq (i : string) (t : Task) : has_id i t = true <-> id t = i.
Proof. unfold has_id. apply String.eqb_eq. Qed.

Lemma has_id_neq (i : string) (t : Task) : has_id i t = false <-> id t <> i.
Proof. unfold has_id. apply String.eqb_neq. Qed.

Lemma present_In (i : string) (l : list Task) :
  present i l = true <-> In i (ids l).
Proof.
  unfold present, ids. rewrite existsb_exists, in_map_iff.
  split; intros (t & H1 & H2).
  - exists t. split; [now apply has_id_eq|assumption].
  - exists t. split; [assumption|now apply has_id_eq].
Qed.

Lemma present_split (i : string) (l : list Task) :
  present i l = true ->
  exists index l1 t l2,
    l = (l1 ++ t :: l2)%list /\ id t = i /\
    findIndex (has_id i) l = Some index /\
    nth_error l index = Some t /\
    find (has_id i) l = Some t /\
    forall x, set_nth index x l = (l1 ++ x :: l2)%list.
Proof.
  intros H. destruct (findIndex_present _ _ H) as [index Hi].
  destruct (findIndex_split _ _ _ Hi)
    as (l1 & t & l2 & Hl & _ & Ht & _ & Hn & Hs).
  exists index, l1, t, l2. repeat split; auto.
  - now apply has_id_eq.
  - eapply find_findIndex; eassumption.
Qed.

Lemma ids_middle (l1 l2 : list Task) (a b : Task) :
  id a = id b -> ids (l1 ++ a :: l2) = ids (l1 ++ b :: l2).
Proof. intros H. unfold ids. rewrite !map_app. simpl. now rewrite H. Qed.

Lemma filter_out_middle (l1 l2 : list Task) (t : Task) :
  NoDup (ids (l1 ++ t :: l2)) ->
  filter (fun x => negb (has_id (id t) x)) (l1 ++ t :: l2)
  = (l1 ++ l2)%list.
Proof.
  intros Hnd.
  assert (Hother : forall x, In x (l1 ++ l2)%list ->
                             negb (has_id (id t) x) = true).
  { intros x Hx. apply negb_true_iff, has_id_neq. intros Heq.
    assert (Hin : In x (l1 ++ t :: l2)).
    { apply in_app_iff in Hx. apply in_app_iff. simpl. tauto. }
    assert (Ht : In t (l1 ++ t :: l2)) by (apply in_elt).
    pose proof (NoDup_map_inj id _ x t Hnd Hin Ht Heq) as ->.
    unfold ids in Hnd. rewrite map_app in Hnd. simpl in Hnd.
    apply NoDup_remove_2 in Hnd. apply Hnd.
    rewrite <- map_app. now apply in_map. }
  rewrite filter_app. simpl.
  replace (has_id (id t) t) with true by (symmetry; now apply has_id_eq).
  simpl. rewrite <- filter_app. now apply filter_all.
Qed.

Lemma create_inverse (l cur : list Task) (t : Task) :
  present (id t) cur = false ->
  Permutation l (cur ++ [t]) ->
  Permutation (undone (mkAction create t None) l) cur.
Proof.
  intros Hfresh Hp. unfold undone. simpl.
  eapply perm_trans; [apply filter_perm, Hp|].
  rewrite filter_app. simpl.
  replace (has_id (id t) t) with true by (symmetry; now apply has_id_eq).
  simpl. rewrite app_nil_r. rewrite filter_all; [apply Permutation_refl|].
  intros x Hx. apply negb_true_iff.
  destruct (has_id (id t) x) eqn:E; [|reflexivity].
  unfold present in Hfresh.
  assert (existsb (has_id (id t)) cur = true)
    by (apply existsb_exists; eauto).
  congruence.
Qed.

Lemma update_inverse (l l1 l2 : list Task) (previous updatedTask : Task) :
  id updatedTask = id previous ->
  NoDup (ids (l1 ++ previous :: l2)) ->
  Permutation l (l1 ++ updatedTask :: l2) ->
  Permutation (undone (mkAction update updatedTask (Some previous)) l)
              (l1 ++ previous :: l2).
Proof.
  intros Hid Hnd Hp. unfold undone. simpl.
  assert (Hin : In updatedTask l).
  { eapply Permutation_in; [apply Permutation_sym, Hp|]. apply in_elt. }
  assert (Hnd' : NoDup (ids l)).
  { eapply Permutation_NoDup.
    - apply Permutation_sym. unfold ids. apply Permutation_map, Hp.
    - fold (ids (l1 ++ updatedTask :: l2)).
      now rewrite (ids_middle l1 l2 updatedTask previous Hid). }
  assert (Hpres : present (id previous) l = true).
  { apply present_In. rewrite <- Hid. unfold ids. now apply in_map. }
  destruct (findIndex_present _ _ Hpres) as [index Hi]. rewrite Hi.
  destruct (findIndex_split _ _ _ Hi)
    as (m1 & y & m2 & Hl & _ & Hy & _ & _ & Hs).
  rewrite Hs. apply has_id_eq in Hy.
  assert (y = updatedTask).
  { apply (NoDup_map_inj id l); auto.
    - rewrite Hl. apply in_elt.
    - congruence. }
  subst y. rewrite Hl in Hp.
  apply Permutation_app_inv in Hp.
  apply Permutation_trans with (previous :: m1 ++ m2)%list.
  - apply Permutation_sym, Permutation_middle.
  - apply Permutation_trans with (previous :: l1 ++ l2)%list.
    + now apply perm_skip.
    + apply Permutation_middle.
Qed.

Lemma delete_inverse (l l1 l2 : list Task) (t : Task) :
  NoDup (ids (l1 ++ t :: l2)) ->
  Permutation l (filter (fun x => negb (has_id (id t) x)) (l1 ++ t :: l2)) ->
  Permutation (undone (mkAction delete t None) l) (l1 ++ t :: l2).
Proof.
  intros Hnd Hp. unfold undone. simpl.
  rewrite filter_out_middle in Hp by assumption.
  apply Permutation_trans with (t :: l)%list.
  - apply Permutation_sym, Permutation_cons_append.
  - apply Permutation_trans with (t :: l1 ++ l2)%list.
    + now apply perm_skip.
    + apply Permutation_middle.
Qed.

Lemma create_step (e : Env) (data : PartialTask) (s : Store) :
  env_io e = true ->
  present (env_uuid e) (tasks s) = false ->
  NoDup (ids (tasks s)) ->
  exists a, inverted_by s (fst (createTask e data s)) a.
Proof.
  intros Hio Hfresh Hnd. rewrite createTask_resolved by assumption.
  cbv zeta. simpl fst.
  exists (mkAction create (newTask e data (tasks s)) None).
  repeat split; simpl.
  - unfold ids. rewrite map_app. simpl.
    apply Permutation_NoDup with (env_uuid e :: ids (tasks s)).
    + apply Permutation_cons_append.
    + constructor; [|assumption].
      intros Hin. apply present_In in Hin. congruence.
  - intros l Hp. now apply create_inverse.
Qed.

Lemma update_step (e : Env) (i : string) (u : PartialTask) (s : Store) :
  env_io e = true ->
  present i (tasks s) = true ->
  keeps_id i u = true ->
  NoDup (ids (tasks s)) ->
  exists a, inverted_by s (fst (updateTask e i u s)) a.
Proof.
  intros Hio Hpres Hk Hnd.
  destruct (present_split _ _ Hpres)
    as (index & l1 & previous & l2 & Hl & Hid & Hi & Hn & _ & Hs).
  rewrite (updateTask_resolved e i u s index previous) by assumption.
  cbv zeta. simpl fst.
  assert (Hsame : id (merged previous u (env_now e)) = id previous).
  { simpl. unfold keeps_id in Hk. destruct (p_id u) as [j|]; simpl.
    - apply String.eqb_eq in Hk. congruence.
    - reflexivity. }
  exists (mkAction update (merged previous u (env_now e)) (Some previous)).
  repeat split; simpl.
  - rewrite Hs.
    rewrite (ids_middle l1 l2 _ previous Hsame). now rewrite <- Hl.
  - intros l Hp. rewrite Hs in Hp. rewrite Hl in Hnd |- *.
    now apply update_inverse.
Qed.

Lemma remove_step (i : string) (s : Store) :
  present i (tasks s) = true ->
  NoDup (ids (tasks s)) ->
  exists a, inverted_by s (fst (removeTask true i s)) a.
Proof.
  intros Hpres Hnd.
  destruct (present_split _ _ Hpres)
    as (index & l1 & t & l2 & Hl & Hid & _ & _ & Hf & _).
  rewrite (removeTask_resolved i s t Hf). simpl fst.
  exists (mkAction delete t None).
  repeat split; simpl.
  - rewrite Hl in Hnd |- *. subst i.
    rewrite filter_out_middle by assumption.
    unfold ids in *. rewrite map_app in *. simpl in Hnd.
    now apply NoDup_remove_1 in Hnd.
  - intros l Hp. rewrite Hl in Hnd, Hp |- *. subst i.
    now apply delete_inverse.
Qed.

Lemma effect_step (o : Op) (s : Store) :
  takes_effect o s = true ->
  NoDup (ids (tasks s)) ->
  exists a, inverted_by s (step o s) a.
Proof.
  intros He Hnd. destruct o as [io|e data|e i u|io i|stamp e i|e i|io|];
    simpl in He; try discriminate.
  - apply andb_true_iff in He as [Hio Hf]. apply negb_true_iff in Hf.
    now apply create_step.
  - apply andb_true_iff in He as [He Hk].
    apply andb_true_iff in He as [Hio Hp].
    now apply update_step.
  - apply andb_true_iff in He as [-> Hp]. now apply remove_step.
  - apply andb_true_iff in He as [Hio Hp].
    destruct (present_split _ _ Hp) as (_ & _ & t & _ & _ & _ & _ & _ & Hf & _).
    simpl. rewrite (toggle_is_update stamp e i s t Hf).
    now apply update_step.
  - apply andb_true_iff in He as [Hio Hp].
    destruct (present_split _ _ Hp) as (_ & _ & t & _ & _ & _ & _ & _ & Hf & _).
    simpl. rewrite (increment_is_update e i s t Hf).
    now apply update_step.
Qed.

(** ** Runs of mutations followed by as many undos *)

Lemma exec_app (ops ops' : list Op) (s : Store) :
  exec (ops ++ ops') s = exec ops' (exec ops s).
Proof.
  revert s. induction ops as [|o ops IH]; intros s; simpl; auto.
Qed.

(** After [n <= 50] mutations that take effect and [n] undos, the
    collection is an arrangement of the one before, and the history is
    what was left of the old one after the pushes evicted its oldest
    records. *)
Lemma undo_n_after_exec (ops : list Op) (s : Store) :
  NoDup (ids (tasks s)) ->
  (List.length (undoStack s) <= MAX_UNDO_STACK)%nat ->
  (List.length ops <= MAX_UNDO_STACK)%nat ->
  all_take_effect ops s = true ->
  Permutation (tasks (undo_n (List.length ops) (exec ops s))) (tasks s) /\
  undoStack (undo_n (List.length ops) (exec ops s))
  = skipn (List.length (undoStack s) + List.length ops - MAX_UNDO_STACK)
          (undoStack s).
Proof.
  revert s. induction ops as [|o rest IH]; intros s Hnd Hst Hn He.
  - simpl. split; [apply Permutation_refl|].
    replace (List.length (undoStack s) + 0 - MAX_UNDO_STACK)%nat
      with 0%nat by lia.
    reflexivity.
  - simpl in He. apply andb_true_iff in He as [Ho Hrest].
    destruct (effect_step o s Ho Hnd) as (a & Hpush & Hnd1 & Hinv).
    assert (Hst1 : (List.length (undoStack (step o s)) <= MAX_UNDO_STACK)%nat).
    { rewrite Hpush, pushAction_length by assumption. lia. }
    simpl List.length in Hn |- *.
    destruct (IH (step o s) Hnd1 Hst1 ltac:(lia) Hrest) as [Hperm Hstack].
    simpl exec. simpl undo_n.
    set (s2 := undo_n (List.length rest) (exec rest (step o s))) in *.
    assert (Htop : undoStack s2
                   = (skipn (List.length (undoStack s)
                             + S (List.length rest) - MAX_UNDO_STACK)
                            (undoStack s) ++ [a])%list).
    { rewrite Hstack, Hpush.
      rewrite pushAction_length by assumption.
      rewrite pushAction_skipn by assumption.
      rewrite skipn_skipn, skipn_app.
      f_equal.
      - f_equal. unfold MAX_UNDO_STACK in *. lia.
      - replace (_ - List.length (undoStack s))%nat with 0%nat
          by (unfold MAX_UNDO_STACK in *; lia).
        reflexivity. }
    destruct (undo_top s2 _ a Htop) as [records Hundo].
    rewrite Hundo. simpl. split; [|reflexivity].
    now apply Hinv.
Qed.

Lemma pop_Some {A} (l rest : list A) (a : A) :
  pop l = Some (rest, a) -> l = (rest ++ [a])%list.
Proof.
  revert rest. induction l as [|x l IH]; intros rest H; simpl in H.
  - discriminate.
  - destruct (pop l) as [[r y]|] eqn:E.
    + injection H as <- <-. simpl. f_equal. now apply IH.
    + injection H as <- <-. apply pop_nil_iff in E. now subst.
Qed.

Lemma updateTask_history (e : Env) (i : string) (u : PartialTask)
      (s : Store) :
  history_change (undoStack s) (undoStack (fst (updateTask e i u s))).
Proof.
  destruct (present i (tasks s)) eqn:Hp.
  - destruct (env_io e) eqn:Hio.
    + destruct (present_split _ _ Hp)
        as (index & l1 & t & l2 & _ & _ & Hi & Hn & _ & _).
      rewrite (updateTask_resolved e i u s index t) by assumption.
      eapply hc_push. reflexivity.
    + rewrite (proj1 (updateTask_rejected e i u s Hio)).
      now apply hc_same.
  - rewrite updateTask_absent by assumption. now apply hc_same.
Qed.

Lemma step_history (o : Op) (s : Store) :
  history_change (undoStack s) (undoStack (step o s)).
Proof.
  destruct o as [io|e data|e i u|io i|stamp e i|e i|io|]; simpl.
  - unfold initStore, bind, try_catch, getAllTasks, setTasks, setLoading.
    destruct io; now apply hc_same.
  - destruct (env_io e) eqn:Hio.
    + rewrite createTask_resolved by assumption. eapply hc_push. reflexivity.
    + rewrite createTask_rejected by assumption. now apply hc_same.
  - apply updateTask_history.
  - destruct (present i (tasks s)) eqn:Hp.
    + destruct io.
      * destruct (present_split _ _ Hp)
          as (_ & _ & t & _ & _ & _ & _ & _ & Hf & _).
        rewrite (removeTask_resolved i s t Hf). eapply hc_push. reflexivity.
      * rewrite (proj1 (removeTask_rejected i s)). now apply hc_same.
    + rewrite removeTask_absent by assumption. now apply hc_same.
  - destruct (find (has_id i) (tasks s)) as [t|] eqn:Hf.
    + rewrite (toggle_is_update stamp e i s t Hf). apply updateTask_history.
    + unfold toggleTaskCompletion, bind, getTasks. rewrite Hf.
      now apply hc_same.
  - destruct (find (has_id i) (tasks s)) as [t|] eqn:Hf.
    + rewrite (increment_is_update e i s t Hf). apply updateTask_history.
    + unfold incrementPomodoro, bind, getTasks. rewrite Hf.
      now apply hc_same.
  - unfold undo, popAction, getTasks, bind at 1.
    destruct (pop (undoStack s)) as [[rest a]|] eqn:Hpop.
    + apply pop_Some in Hpop. apply hc_pop with a.
      rewrite Hpop. f_equal.
      unfold bind, saveTask, deleteTask, setTasks, ret. cbn [tasks].
      destruct (action_type a), (previousTask a) as [previous|], io;
        try reflexivity;
        destruct (findIndex (has_id (id previous)) (tasks s)); reflexivity.
    + now apply hc_same.
  - now apply hc_clear.
Qed.

Lemma step_history_bound (o : Op) (s : Store) :
  (List.length (undoStack s) <= MAX_UNDO_STACK)%nat ->
  (List.length (undoStack (step o s)) <= MAX_UNDO_STACK)%nat.
Proof.
  intros H. destruct (step_history o s) as [E|a E|a E|E].
  - now rewrite E.
  - rewrite E, pushAction_length by assumption. lia.
  - rewrite E, length_app in H. simpl in H. lia.
  - rewrite E. simpl. lia.
Qed.

Lemma exec_history_bound (ops : list Op) (s : Store) :
  (List.length (undoStack s) <= MAX_UNDO_STACK)%nat ->
  (List.length (undoStack (exec ops s)) <= MAX_UNDO_STACK)%nat.
Proof.
  revert s. induction ops as [|o ops IH]; intros s H; simpl.
  - assumption.
  - apply IH. now apply step_history_bound.
Qed.

Lemma exec_cons (o : Op) (ops : list Op) (s : Store) :
  exec (o :: ops) s = exec ops (step o s).
Proof. reflexivity. Qed.

Lemma undo_n_S (n : nat) (s : Store) :
  undo_n (S n) s = fst (undo true (undo_n n s)).
Proof. reflexivity. Qed.

Lemma exec_effect_length (ops : list Op) (s : Store) :
  NoDup (ids (tasks s)) ->
  (List.length (undoStack s) <= MAX_UNDO_STACK)%nat ->
  all_take_effect ops s = true ->
  List.length (undoStack (exec ops s))
  = Nat.min (List.length (undoStack s) + List.length ops) MAX_UNDO_STACK.
Proof.
  revert s. induction ops as [|o rest IH]; intros s Hnd Hst He.
  - simpl. lia.
  - simpl in He. apply andb_true_iff in He as [Ho Hrest].
    destruct (effect_step o s Ho Hnd) as (a & Hpush & Hnd1 & _).
    assert (Hlen := pushAction_length a (undoStack s) Hst).
    rewrite <- Hpush in Hlen.
    simpl. rewrite IH; auto; rewrite Hlen; lia.
Qed.

(** C2, amended. From a store whose tasks have distinct ids and whose
    history holds at most 50 records, run N <= 50 mutations that each
    take effect (the write goes through, an update or delete finds its
    task, an update keeps the id, a create draws an unused id), then N
    undos with writes that go through: the in-memory collection is an
    arrangement of the collection before the run.  The task records are
    the same ones, so ids, [order], [createdAt] and [updatedAt] are
    those from before the mutations; only positions may differ, because
    a restored deletion is appended. *)
Theorem undo_restores_collection (s : Store) (ops : list Op) :
  NoDup (ids (tasks s)) ->
  (List.length (undoStack s) <= MAX_UNDO_STACK)%nat ->
  (List.length ops <= MAX_UNDO_STACK)%nat ->
  all_take_effect ops s = true ->
  Permutation (tasks (undo_n (List.length ops) (exec ops s))) (tasks s).
Proof.
  intros Hnd Hst Hn He.
  exact (proj1 (undo_n_after_exec ops s Hnd Hst Hn He)).
Qed.

(** C3. The history holds at most 50 records at all times; a push on a
    full history drops the oldest record and keeps the new one.  After
    51 mutations that take effect, the history holds 50 records; 50
    undos bring the collection back to what it was after the first of
    the 51 mutations and empty the history, and the 51st undo changes
    nothing. *)
Theorem undo_history_bounded (s : Store) (first : Op) (later : list Op) :
  NoDup (ids (tasks s)) ->
  (List.length (undoStack s) <= MAX_UNDO_STACK)%nat ->
  List.length later = MAX_UNDO_STACK ->
  all_take_effect (first :: later) s = true ->
  let s51 := exec (first :: later) s in
  (forall ops,
     (List.length (undoStack (exec ops s)) <= MAX_UNDO_STACK)%nat)
  /\ (forall a st, List.length st = MAX_UNDO_STACK ->
                   pushAction a st = (tl st ++ [a])%list)
  /\ List.length (undoStack s51) = MAX_UNDO_STACK
  /\ Permutation (tasks (undo_n MAX_UNDO_STACK s51)) (tasks (step first s))
  /\ undoStack (undo_n MAX_UNDO_STACK s51) = []
  /\ undo_n (S MAX_UNDO_STACK) s51 = undo_n MAX_UNDO_STACK s51.
Proof.
  intros Hnd Hst Hlen He s51.
  assert (Hfirst : takes_effect first s = true /\
                   all_take_effect later (step first s) = true).
  { simpl in He. now apply andb_true_iff in He. }
  destruct Hfirst as [Hf Hl].
  destruct (effect_step first s Hf Hnd) as (a & Hpush & Hnd1 & _).
  assert (Hst1 : (List.length (undoStack (step first s))
                  <= MAX_UNDO_STACK)%nat)
    by now apply step_history_bound.
  destruct (undo_n_after_exec later (step first s) Hnd1 Hst1
              ltac:(lia) Hl) as [Hperm Hstack].
  rewrite Hlen in Hperm, Hstack.
  assert (Hempty : undoStack (undo_n MAX_UNDO_STACK s51) = []).
  { unfold s51. rewrite exec_cons, Hstack. apply skipn_all2. lia. }
  repeat split.
  - intros ops. now apply exec_history_bound.
  - intros a0 st. apply pushAction_full.
  - unfold s51. rewrite exec_effect_length by assumption.
    cbn [List.length]. rewrite Hlen. lia.
  - unfold s51. rewrite exec_cons. exact Hperm.
  - exact Hempty.
  - rewrite undo_n_S, undo_empty by exact Hempty. reflexivity.
Qed.

Lemma undo_restores_collection_witness :
  Permutation
    (tasks (undo_n (List.length (creates 2 3 ++ sample_run))
                   (exec (creates 2 3 ++ sample_run)
                         (exec (creates 7 2) (initial [])))))
    (tasks (exec (creates 7 2) (initial []))).
Proof.
  apply (undo_restores_collection (exec (creates 7 2) (initial []))
                                  (creates 2 3 ++ sample_run)).
  - vm_compute. repeat constructor; simpl; intuition discriminate.
  - vm_compute. lia.
  - vm_compute. lia.
  - vm_compute. reflexivity.
Defined.

(** C2 as stated fails for N = 51: after 51 creations on the empty
    store and 51 undos, the task created first is still there. *)
Lemma fifty_one_creates_not_undone :
  all_take_effect (creates 0 51) (initial []) = true /\
  List.length (creates 0 51) = 51%nat /\
  tasks (initial []) = [] /\
  map id (tasks (undo_n 51 (exec (creates 0 51) (initial [])))) = ["id-00"] /\
  ~ Permutation (tasks (undo_n 51 (exec (creates 0 51) (initial []))))
                (tasks (initial [])).
Proof.
  assert (E : map id (tasks (undo_n 51 (exec (creates 0 51) (initial []))))
              = ["id-00"]) by (vm_compute; reflexivity).
  split; [vm_compute; reflexivity|].
  split; [vm_compute; reflexivity|].
  split; [reflexivity|].
  split; [exact E|].
  intros H.
  apply (Permutation_map id), Permutation_length in H.
  rewrite E in H. discriminate H.
Qed.

(** A mutation that finds no task pushes no record, so the undo that
    follows it replays an older one: after creating a task, one update
    of an absent id and one undo leave the store empty. *)
Example absent_update_then_undo :
  map id (tasks (exec (creates 0 1) (initial []))) = ["id-00"] /\
  tasks (undo_n 1 (exec [OUpdate (nth_env 1) "no-such-id" retitle]
                        (exec (creates 0 1) (initial [])))) = [].
Proof. split; vm_compute; reflexivity. Qed.

(** A restored deletion goes to the end of the collection. *)
Example restored_deletion_is_appended :
  map id (tasks two_tasks) = ["id-00"; "id-01"] /\
  map id (tasks (undo_n 1 (exec [ORemove true "id-00"] two_tasks)))
  = ["id-01"; "id-00"].
Proof. split; vm_compute; reflexivity. Qed.

Lemma undo_history_bounded_witness :
  List.length (undoStack (exec (OCreate (nth_env 0) emptyPartial
                                :: creates 1 50) (initial [])))
  = MAX_UNDO_STACK /\
  Permutation
    (tasks (undo_n MAX_UNDO_STACK
                   (exec (OCreate (nth_env 0) emptyPartial :: creates 1 50)
                         (initial []))))
    (tasks (step (OCreate (nth_env 0) emptyPartial) (initial []))) /\
  undoStack (undo_n MAX_UNDO_STACK
                    (exec (OCreate (nth_env 0) emptyPartial :: creates 1 50)
                          (initial []))) = [] /\
  undo_n (S MAX_UNDO_STACK)
         (exec (OCreate (nth_env 0) emptyPartial :: creates 1 50)
               (initial []))
  = undo_n MAX_UNDO_STACK
           (exec (OCreate (nth_env 0) emptyPartial :: creates 1 50)
                 (initial [])).
Proof.
  assert (Hnd : NoDup (ids (tasks (initial [])))) by constructor.
  assert (Hst : (List.length (undoStack (initial [])) <= MAX_UNDO_STACK)%nat)
    by apply Nat.le_0_l.
  assert (Hlen : List.length (creates 1 50) = MAX_UNDO_STACK)
    by (vm_compute; reflexivity).
  assert (He : all_take_effect (OCreate (nth_env 0) emptyPartial
                                :: creates 1 50) (initial []) = true)
    by (vm_compute; reflexivity).
  exact (proj2 (proj2 (undo_history_bounded (initial [])
                         (OCreate (nth_env 0) emptyPartial) (creates 1 50)
                         Hnd Hst Hlen He))).
Defined.

(** ** Writes come first *)

Lemma In_put (t : Task) (records : list Task) : In t (put t records).
Proof.
  unfold put. destruct (findIndex (has_id (id t)) records) as [index|] eqn:E.
  - destruct (findIndex_split _ _ _ E)
      as (l1 & y & l2 & _ & _ & _ & _ & _ & Hs).
    rewrite Hs. apply in_elt.
  - apply in_app_iff. right. now left.
Qed.

(** C8. [createTask], [updateTask] and [removeTask] write through the
    adapter before they touch the collection or the history: when the
    write fails the call rejects and both are as before; when it goes
    through, the adapter holds the task that was put in the collection
    (and, after a removal, no record with the removed id). *)
Theorem write_precedes_memory (s : Store) (e : Env) (data : PartialTask)
        (i : string) (u : PartialTask) :
  (env_io e = false ->
     (tasks (fst (createTask e data s)) = tasks s
      /\ undoStack (fst (createTask e data s)) = undoStack s
      /\ snd (createTask e data s) = Rejected)
     /\ (tasks (fst (updateTask e i u s)) = tasks s
         /\ undoStack (fst (updateTask e i u s)) = undoStack s
         /\ (present i (tasks s) = true ->
                snd (updateTask e i u s) = Rejected))
     /\ (tasks (fst (removeTask (env_io e) i s)) = tasks s
         /\ undoStack (fst (removeTask (env_io e) i s)) = undoStack s
         /\ (present i (tasks s) = true ->
                snd (removeTask (env_io e) i s) = Rejected)))
  /\
  (env_io e = true ->
     (forall s' task, createTask e data s = (s', Resolved task) ->
        In task (tasks s') /\ In task (db s'))
     /\ (forall s' task, updateTask e i u s = (s', Resolved (Some task)) ->
           In task (tasks s') /\ In task (db s'))
     /\ (present i (tasks s) = true ->
         forall t,
           In t (tasks (fst (removeTask (env_io e) i s))) \/
           In t (db (fst (removeTask (env_io e) i s))) ->
           id t <> i)).
Proof.
  split; intros Hio.
  - split; [now rewrite createTask_rejected|]. split.
    + destruct (updateTask_rejected e i u s Hio) as [-> Hr]. auto.
    + rewrite Hio. destruct (removeTask_rejected i s) as [-> Hr]. auto.
  - split; [|split].
    + intros s' task H. rewrite createTask_resolved in H by assumption.
      cbv zeta in H. injection H as <- <-. simpl. split.
      * apply in_app_iff. right. now left.
      * apply In_put.
    + intros s' task H.
      destruct (present i (tasks s)) eqn:Hp.
      * destruct (present_split _ _ Hp)
          as (index & l1 & t & l2 & _ & _ & Hi & Hn & _ & Hs).
        rewrite (updateTask_resolved e i u s index t) in H by assumption.
        cbv zeta in H. injection H as <- <-. simpl. split.
        -- rewrite Hs. apply in_elt.
        -- apply In_put.
      * rewrite updateTask_absent in H by assumption. discriminate H.
    + rewrite Hio. intros Hp t Hin.
      destruct (present_split _ _ Hp)
        as (_ & _ & t0 & _ & _ & _ & _ & _ & Hf & _).
      rewrite (removeTask_resolved i s t0 Hf) in Hin. simpl in Hin.
      destruct Hin as [Hin|Hin]; apply filter_In in Hin;
        destruct Hin as [_ Hne]; apply negb_true_iff in Hne;
        now apply has_id_neq.
Qed.

Lemma write_precedes_memory_witness :
  (tasks (fst (createTask failing_env modest two_tasks)) = tasks two_tasks /\
   undoStack (fst (createTask failing_env modest two_tasks))
   = undoStack two_tasks /\
   snd (createTask failing_env modest two_tasks) = Rejected) /\
  (tasks (fst (updateTask failing_env "id-01" retitle two_tasks))
   = tasks two_tasks /\
   undoStack (fst (updateTask failing_env "id-01" retitle two_tasks))
   = undoStack two_tasks /\
   (present "id-01" (tasks two_tasks) = true ->
    snd (updateTask failing_env "id-01" retitle two_tasks) = Rejected)) /\
  (tasks (fst (removeTask (env_io failing_env) "id-01" two_tasks))
   = tasks two_tasks /\
   undoStack (fst (removeTask (env_io failing_env) "id-01" two_tasks))
   = undoStack two_tasks /\
   (present "id-01" (tasks two_tasks) = true ->
    snd (removeTask (env_io failing_env) "id-01" two_tasks) = Rejected)).
Proof.
  apply (proj1 (write_precedes_memory two_tasks failing_env modest
                  "id-01" retitle)).
  reflexivity.
Defined.

(** ** Toggling *)

Lemma find_split (p : Task -> bool) (l : list Task) (y : Task) :
  find p l = Some y ->
  exists index l1 l2,
    l = (l1 ++ y :: l2)%list /\ p y = true /\
    (forall z, In z l1 -> p z = false) /\
    findIndex p l = Some index /\
    nth_error l index = Some y /\
    forall x, set_nth index x l = (l1 ++ x :: l2)%list.
Proof.
  intros Hf.
  destruct (findIndex p l) as [index|] eqn:Hi.
  - destruct (findIndex_split _ _ _ Hi)
      as (l1 & y' & l2 & Hl & _ & Hy & Hl1 & Hn & Hs).
    assert (y' = y).
    { pose proof (find_findIndex _ _ _ _ Hi Hn) as Hf'. congruence. }
    subst y'. exists index, l1, l2. repeat split; auto.
  - apply find_None_findIndex in Hi. congruence.
Qed.

Lemma find_middle (p : Task -> bool) (l1 l2 : list Task) (x : Task) :
  (forall z, In z l1 -> p z = false) -> p x = true ->
  find p (l1 ++ x :: l2) = Some x.
Proof.
  intros Hl1 Hx. induction l1 as [|a l1 IH]; simpl.
  - now rewrite Hx.
  - rewrite (Hl1 a) by now left. apply IH.
    intros z Hz. apply Hl1. now right.
Qed.

(** One toggle whose write goes through: the task found under the id
    afterwards is the old one with [completed] flipped, [completedAt]
    stamped or cleared, and [updatedAt] refreshed. *)
Lemma toggle_once (s : Store) (i : string) (task : Task)
      (stamp : string) (e : Env) :
  find (has_id i) (tasks s) = Some task ->
  env_io e = true ->
  find (has_id i) (tasks (fst (toggleTaskCompletion stamp e i s)))
  = Some (merged task (toggle_patch stamp task) (env_now e)).
Proof.
  intros Hf Hio.
  destruct (find_split _ _ _ Hf)
    as (index & l1 & l2 & Hl & Hy & Hl1 & Hi & Hn & Hs).
  rewrite (toggle_is_update stamp e i s task Hf).
  rewrite (updateTask_resolved e i _ s index task Hio Hi Hn).
  cbv zeta. simpl fst. simpl tasks. rewrite Hs.
  apply find_middle; [assumption|].
  apply has_id_eq. simpl. now apply has_id_eq.
Qed.

(** C6, amended. Two toggles of a task in the store, both written
    through: [completed] is back at its original value; [completedAt]
    is null again when the task was not completed, and is the time of
    the second toggle when it was.  So the pair is restored for a task
    that started not completed with [completedAt] null. *)
Theorem toggle_twice (s : Store) (i : string) (task : Task)
        (stamp1 stamp2 : string) (e1 e2 : Env) :
  find (has_id i) (tasks s) = Some task ->
  env_io e1 = true ->
  env_io e2 = true ->
  exists task2,
    find (has_id i)
         (tasks (fst (toggleTaskCompletion stamp2 e2 i
                        (fst (toggleTaskCompletion stamp1 e1 i s)))))
    = Some task2 /\
    completed task2 = completed task /\
    completedAt task2 = (if completed task then Some stamp2 else None) /\
    (completed task = false -> completedAt task = None ->
       (completed task2, completedAt task2)
       = (completed task, completedAt task)).
Proof.
  intros Hf H1 H2.
  pose proof (toggle_once s i task stamp1 e1 Hf H1) as Hf1.
  pose proof (toggle_once _ i _ stamp2 e2 Hf1 H2) as Hf2.
  eexists. split; [exact Hf2|].
  simpl. destruct (completed task); simpl; repeat split; auto.
  - discriminate.
  - intros _ ->. reflexivity.
Qed.

Lemma toggle_twice_witness :
  exists task2,
    find (has_id "id-01")
         (tasks (fst (toggleTaskCompletion "1970-01-01T09:30:00.000Z"
                        (nth_env 3) "id-01"
                        (fst (toggleTaskCompletion "1970-01-01T09:00:00.000Z"
                                (nth_env 2) "id-01" two_tasks)))))
    = Some task2 /\
    completed task2 = false /\ completedAt task2 = None.
Proof.
  destruct (toggle_twice two_tasks "id-01"
              (newTask (nth_env 1) emptyPartial
                       [newTask (nth_env 0) emptyPartial []])
              "1970-01-01T09:00:00.000Z" "1970-01-01T09:30:00.000Z"
              (nth_env 2) (nth_env 3) eq_refl eq_refl eq_refl)
    as (task2 & Hf & Hc & Hs & _).
  exists task2. auto.
Defined.

(** C6 as stated fails on a completed task: completed at 09:00, toggled
    at 10:00 and again at 11:00, it is completed at 11:00. *)
Lemma toggle_twice_restamps :
  option_map (fun t => (completed t, completedAt t))
             (find (has_id "id-00") (tasks one_completed))
  = Some (true, Some "1970-01-01T09:00:00.000Z") /\
  option_map (fun t => (completed t, completedAt t))
             (find (has_id "id-00")
                (tasks (fst (toggleTaskCompletion "1970-01-01T11:00:00.000Z"
                               (nth_env 3) "id-00"
                               (fst (toggleTaskCompletion
                                       "1970-01-01T10:00:00.000Z"
                                       (nth_env 2) "id-00" one_completed))))))
  = Some (true, Some "1970-01-01T11:00:00.000Z") /\
  (true, Some "1970-01-01T11:00:00.000Z")
  <> (true, Some "1970-01-01T09:00:00.000Z").
Proof.
  split; [vm_compute; reflexivity|].
  split; [vm_compute; reflexivity|].
  discriminate.
Qed.

(** ** Creation *)

Lemma fold_left_max (os : list Z) (o : Z) :
  (fold_left Z.max os o = o \/ In (fold_left Z.max os o) os) /\
  o <= fold_left Z.max os o /\
  forall x, In x os -> x <= fold_left Z.max os o.
Proof.
  revert o. induction os as [|a os IH]; intros o; simpl.
  - split; [now left|]. split; [lia|]. intros x [].
  - destruct (IH (Z.max o a)) as (Hm & Hle & Hall).
    split; [|split].
    + destruct Hm as [Hm|Hm]; [|auto].
      rewrite Hm. destruct (Z.max_spec o a) as [[_ ->]|[_ ->]]; auto.
    + lia.
    + intros x [<-|Hx]; [lia|auto].
Qed.

Lemma maxOrderOf_nil : maxOrderOf [] = 0.
Proof. reflexivity. Qed.

Lemma maxOrderOf_max (l : list Task) :
  l <> [] ->
  In (maxOrderOf l) (map order l) /\
  forall t, In t l -> order t <= maxOrderOf l.
Proof.
  destruct l as [|a l]; [congruence|]. intros _.
  unfold maxOrderOf. simpl map.
  destruct (fold_left_max (map order l) (order a)) as (Hm & Hle & Hall).
  split.
  - destruct Hm as [->|Hm]; [now left|now right].
  - intros t [<-|Ht]; [assumption|]. apply Hall. now apply in_map.
Qed.

Lemma newTask_reads (e : Env) (d d' : PartialTask) (cur : list Task) :
  same_read_keys d d' -> newTask e d cur = newTask e d' cur.
Proof.
  intros (H1 & H2 & H3 & H4 & H5 & H6 & H7 & H8 & H9 & H10).
  unfold newTask. now rewrite H1, H2, H3, H4, H5, H6, H7, H8, H9, H10.
Qed.

(** [add_one] against the addition of the doubles themselves. *)
Example add_one_is_double_addition :
  forallb (fun m => PrimFloat.eqb (float_of_Z m + 1)%float
                                  (float_of_Z (add_one m)))
          add_one_samples = true.
Proof. vm_compute. reflexivity. Qed.

Lemma add_one_exact (m : Z) : - SAFE <= m < SAFE -> add_one m = m + 1.
Proof.
  intros [Hl Hu]. unfold add_one.
  apply Z.leb_le in Hl. apply Z.ltb_lt in Hu. now rewrite Hl, Hu.
Qed.

Lemma add_one_ge (m : Z) : m <= add_one m.
Proof.
  unfold add_one.
  destruct ((- SAFE <=? m) && (m <? SAFE)); [lia|].
  destruct (Z.abs m <? 2 * SAFE); [|lia].
  destruct (m mod 4 =? 0); lia.
Qed.

(** At position 2^53 the [+ 1] of [createTask] is lost: the new task
    gets the largest existing [order], not one more. *)
Lemma createTask_order_absorbed :
  exists task s',
    createTask (nth_env 3) emptyPartial far_ordered = (s', Resolved task) /\
    map order (tasks far_ordered) = [1; 9007199254740992] /\
    order task = 9007199254740992 /\
    order task <> 9007199254740992 + 1.
Proof.
  eexists. eexists. split; [vm_compute; reflexivity|].
  split; [vm_compute; reflexivity|].
  split; [vm_compute; reflexivity|]. vm_compute. discriminate.
Qed.

(** C10. Whatever the partial holds, a [createTask] that is written
    through returns and stores (at the end of the collection) a task
    whose id is the one generated for the call, with [completed] false,
    [completedAt] null and [pomodoroCount] 0.  Its [order] is 1 when
    there are no tasks; otherwise it is the double sum [m + 1] of the
    largest existing [order] [m]: never below [m], and exactly one
    more than [m] as long as [-2^53 <= m < 2^53].  The keys [id],
    [completed], [completedAt], [pomodoroCount] and [order] of the
    partial have no influence on the result. *)
Theorem createTask_fixed_fields (s : Store) (e : Env) (data : PartialTask) :
  env_io e = true ->
  exists task s',
    createTask e data s = (s', Resolved task) /\
    tasks s' = (tasks s ++ [task])%list /\
    In task (db s') /\
    id task = env_uuid e /\
    completed task = false /\
    completedAt task = None /\
    pomodoroCount task = 0 /\
    (tasks s = [] -> order task = 0 + 1) /\
    (tasks s <> [] ->
       exists m, In m (map order (tasks s)) /\
                 (forall t, In t (tasks s) -> order t <= m) /\
                 order task = add_one m /\
                 m <= order task /\
                 (- SAFE <= m < SAFE -> order task = m + 1)) /\
    (forall data', same_read_keys data data' ->
                   createTask e data' s = createTask e data s).
Proof.
  intros Hio. rewrite createTask_resolved by assumption. cbv zeta.
  eexists. eexists. split; [reflexivity|]. simpl.
  split; [reflexivity|]. split; [apply In_put|].
  split; [reflexivity|]. split; [reflexivity|]. split; [reflexivity|].
  split; [reflexivity|]. split; [|split].
  - intros ->. reflexivity.
  - intros Hne. exists (maxOrderOf (tasks s)).
    destruct (maxOrderOf_max (tasks s) Hne) as [Hin Hmax].
    split; [exact Hin|]. split; [exact Hmax|].
    split; [reflexivity|]. split; [apply add_one_ge|].
    apply add_one_exact.
  - intros data' Hsame.
    rewrite createTask_resolved by assumption. cbv zeta.
    now rewrite (newTask_reads e data data' (tasks s) Hsame).
Qed.

Lemma createTask_fixed_fields_witness :
  exists task s',
    createTask (nth_env 2) intrusive two_tasks = (s', Resolved task) /\
    id task = "id-02" /\
    completed task = false /\
    completedAt task = None /\
    pomodoroCount task = 0 /\
    order task = 3 /\
    createTask (nth_env 2) modest two_tasks
    = createTask (nth_env 2) intrusive two_tasks.
Proof.
  destruct (createTask_fixed_fields two_tasks (nth_env 2) intrusive eq_refl)
    as (task & s' & Hc & _ & _ & Hid & Hcomp & Hat & Hpom & _ & _ & Hsame).
  exists task, s'.
  split; [exact Hc|]. split; [exact Hid|]. split; [exact Hcomp|].
  split; [exact Hat|]. split; [exact Hpom|]. split.
  - rewrite createTask_resolved in Hc by reflexivity.
    injection Hc as _ <-. reflexivity.
  - apply Hsame. repeat split.
Defined.

(** ** Completion stays in step with its timestamp *)

Lemma Forall_set_nth {A} (P : A -> Prop) (i : nat) (x : A) (l : list A) :
  Forall P l -> P x -> Forall P (set_nth i x l).
Proof.
  intros Hl Hx. revert i. induction Hl as [|a l Ha Hl IH]; intros [|i]; simpl;
    auto.
Qed.

Lemma Forall_keep {A} (P : A -> Prop) (f : A -> bool) (l : list A) :
  Forall P l -> Forall P (filter f l).
Proof.
  intros H. apply Forall_forall. intros x Hx. apply filter_In in Hx.
  rewrite Forall_forall in H. now apply H.
Qed.

Lemma Forall_snoc {A} (P : A -> Prop) (x : A) (l : list A) :
  Forall P l -> P x -> Forall P (l ++ [x]).
Proof. intros Hl Hx. apply Forall_app. auto. Qed.

Lemma Forall_put (P : Task -> Prop) (t : Task) (records : list Task) :
  Forall P records -> P t -> Forall P (put t records).
Proof.
  intros Hl Ht. unfold put.
  destruct (findIndex (has_id (id t)) records).
  - now apply Forall_set_nth.
  - now apply Forall_snoc.
Qed.

Lemma Forall_pushAction (P : UndoAction -> Prop) (a : UndoAction)
      (st : list UndoAction) :
  Forall P st -> P a -> Forall P (pushAction a st).
Proof.
  intros Hst Ha. unfold pushAction.
  assert (H : Forall P (st ++ [a])) by now apply Forall_snoc.
  destruct (MAX_UNDO_STACK <? List.length (st ++ [a]))%nat; [|assumption].
  unfold shift. destruct (st ++ [a])%list; [constructor|].
  now inversion H.
Qed.

Lemma consistent_newTask (e : Env) (d : PartialTask) (cur : list Task) :
  consistent (newTask e d cur).
Proof. unfold consistent. simpl. split; [discriminate|congruence]. Qed.

Lemma consistent_merged (previous : Task) (u : PartialTask) (now : string) :
  consistent previous -> patch_safe u -> consistent (merged previous u now).
Proof.
  unfold consistent, patch_safe. simpl.
  destruct (p_completed u), (p_completedAt u); simpl; tauto.
Qed.

Lemma toggle_patch_safe (stamp : string) (task : Task) :
  patch_safe (toggle_patch stamp task).
Proof.
  unfold patch_safe. simpl. destruct (completed task); simpl;
    split; congruence.
Qed.

Lemma pomodoro_patch_safe (task : Task) : patch_safe (pomodoro_patch task).
Proof. exact I. Qed.

Lemma updateTask_keeps_completion (e : Env) (i : string) (u : PartialTask)
      (s : Store) :
  patch_safe u -> completion_inv s ->
  completion_inv (fst (updateTask e i u s)).
Proof.
  intros Hu (Ht & Hst & Hdb).
  destruct (present i (tasks s)) eqn:Hp.
  - destruct (env_io e) eqn:Hio.
    + destruct (present_split _ _ Hp)
        as (index & l1 & t & l2 & Hl & _ & Hi & Hn & _ & _).
      rewrite (updateTask_resolved e i u s index t) by assumption.
      assert (Hprev : consistent t).
      { rewrite Forall_forall in Ht. apply Ht. rewrite Hl. apply in_elt. }
      assert (Hnew : consistent (merged t u (env_now e)))
        by now apply consistent_merged.
      cbv zeta. repeat split; simpl.
      * now apply Forall_set_nth.
      * apply Forall_pushAction; [assumption|].
        split; simpl; [assumption|]. intros p [= <-]. assumption.
      * now apply Forall_put.
    + rewrite (proj1 (updateTask_rejected e i u s Hio)).
      repeat split; assumption.
  - rewrite updateTask_absent by assumption. repeat split; assumption.
Qed.

Lemma step_keeps_completion (o : Op) (s : Store) :
  completion_safe o -> completion_inv s -> completion_inv (step o s).
Proof.
  intros Ho Hs.
  destruct o as [io|e data|e i u|io i|stamp e i|e i|io|]; simpl.
  - destruct Hs as (Ht & Hst & Hdb).
    unfold initStore, bind, try_catch, getAllTasks, setTasks, setLoading.
    destruct io; repeat split; assumption.
  - destruct Hs as (Ht & Hst & Hdb). destruct (env_io e) eqn:Hio.
    + rewrite createTask_resolved by assumption. cbv zeta.
      pose proof (consistent_newTask e data (tasks s)) as Hnew.
      repeat split; simpl.
      * now apply Forall_snoc.
      * apply Forall_pushAction; [assumption|].
        split; simpl; [assumption|discriminate].
      * now apply Forall_put.
    + rewrite createTask_rejected by assumption. repeat split; assumption.
  - now apply updateTask_keeps_completion.
  - destruct Hs as (Ht & Hst & Hdb).
    destruct (present i (tasks s)) eqn:Hp.
    + destruct io.
      * destruct (present_split _ _ Hp)
          as (_ & l1 & t & l2 & Hl & _ & _ & _ & Hf & _).
        rewrite (removeTask_resolved i s t Hf).
        repeat split; simpl.
        -- now apply Forall_keep.
        -- apply Forall_pushAction; [assumption|].
           split; simpl; [|discriminate].
           rewrite Forall_forall in Ht. apply Ht. rewrite Hl. apply in_elt.
        -- now apply Forall_keep.
      * rewrite (proj1 (removeTask_rejected i s)). repeat split; assumption.
    + rewrite removeTask_absent by assumption. repeat split; assumption.
  - destruct (find (has_id i) (tasks s)) as [t|] eqn:Hf.
    + rewrite (toggle_is_update stamp e i s t Hf).
      apply updateTask_keeps_completion; [apply toggle_patch_safe|assumption].
    + unfold toggleTaskCompletion, bind, getTasks. now rewrite Hf.
  - destruct (find (has_id i) (tasks s)) as [t|] eqn:Hf.
    + rewrite (increment_is_update e i s t Hf).
      apply updateTask_keeps_completion; [apply pomodoro_patch_safe|assumption].
    + unfold incrementPomodoro, bind, getTasks. now rewrite Hf.
  - destruct Hs as (Ht & Hst & Hdb).
    unfold undo, popAction, getTasks, bind at 1.
    destruct (pop (undoStack s)) as [[rest a]|] eqn:Hpop.
    + apply pop_Some in Hpop. rewrite Hpop in Hst.
      apply Forall_app in Hst. destruct Hst as [Hrest Ha].
      inversion Ha as [|? ? [Hat Hap] _]; subst.
      unfold bind, saveTask, deleteTask, setTasks, ret. cbn [tasks].
      destruct (action_type a), (previousTask a) as [previous|] eqn:Hprev, io;
        try (repeat split; simpl;
             auto using Forall_keep, Forall_put, Forall_snoc);
        destruct (findIndex (has_id (id previous)) (tasks s));
        repeat split; simpl;
        auto using Forall_set_nth, Forall_put.
    + repeat split; assumption.
  - destruct Hs as (Ht & Hst & Hdb). repeat split; simpl; auto.
Qed.

Lemma exec_keeps_completion (ops : list Op) (s : Store) :
  Forall completion_safe ops -> completion_inv s ->
  completion_inv (exec ops s).
Proof.
  intros Hops. revert s. induction Hops as [|o ops Ho _ IH]; intros s Hs.
  - assumption.
  - simpl. apply IH. now apply step_keeps_completion.
Qed.

(** C9, amended. Start from a store in which every live task, every
    snapshot in the history and every record of the adapter has
    [completed == true] exactly when [completedAt != null].  After any
    sequence of store operations in which each direct [updateTask]
    either leaves [completed] and [completedAt] alone or sets both in
    agreement, every task of the live collection still has it.
    [createTask], [removeTask], [toggleTaskCompletion],
    [incrementPomodoro], [undo], [initStore] and [clearUndoStack] are
    unrestricted. *)
Theorem completion_invariant (s : Store) (ops : list Op) :
  completion_inv s ->
  Forall completion_safe ops ->
  forall t, In t (tasks (exec ops s)) ->
            (completed t = true <-> completedAt t <> None).
Proof.
  intros Hs Hops t Hin.
  destruct (exec_keeps_completion ops s Hops Hs) as (Ht & _ & _).
  rewrite Forall_forall in Ht. exact (Ht t Hin).
Qed.

Lemma completion_invariant_witness :
  Forall (fun t => completed t = true <-> completedAt t <> None)
         (tasks (exec toggled_run (initial []))).
Proof.
  apply Forall_forall.
  apply (completion_invariant (initial []) toggled_run).
  - repeat split; constructor.
  - repeat constructor.
Defined.

(** C9 as stated fails: [updateTask] with a patch that only sets
    [completed] leaves a live task completed with [completedAt] null. *)
Lemma bare_update_breaks_completion :
  completion_inv (initial []) /\
  map (fun t => (id t, completed t, completedAt t))
      (tasks (exec create_then_mark (initial [])))
  = [("id-00", true, None)] /\
  ~ (forall t, In t (tasks (exec create_then_mark (initial []))) ->
               (completed t = true <-> completedAt t <> None)).
Proof.
  split; [repeat split; constructor|].
  split; [vm_compute; reflexivity|].
  intros H.
  assert (E : tasks (exec create_then_mark (initial []))
              = [merged (newTask (nth_env 0) emptyPartial [])
                        mark_completed (env_now (nth_env 1))])
    by (vm_compute; reflexivity).
  rewrite E in H.
  specialize (H _ (or_introl eq_refl)). simpl in H.
  destruct H as [H _]. now apply H.
Qed.

(* ================================================================= *)
(** * Further properties of the urgency engine *)

(** ** Sorting with a comparator *)

Section SortFacts.
Context {A : Type} (cmp : A -> A -> number).
Hypothesis cmp_asym :
  forall a b, number_pos (cmp a b) = true -> not_after cmp b a.
Hypothesis cmp_trans :
  forall a b c, not_after cmp a b -> not_after cmp b c -> not_after cmp a c.

Lemma sort_insert_sorted (x : A) (l : list A) :
  StronglySorted (not_after cmp) l ->
  StronglySorted (not_after cmp) (sort_insert cmp x l).
Proof.
  induction l as [|y l IH]; intros Hs; simpl.
  - repeat constructor.
  - apply StronglySorted_inv in Hs. destruct Hs as [Hl Hy].
    destruct (number_pos (cmp x y)) eqn:Hxy.
    + constructor; [now apply IH|].
      apply Forall_forall. intros z Hz.
      apply (Permutation_in _ (sort_insert_perm cmp x l)) in Hz.
      destruct Hz as [<-|Hz].
      * now apply cmp_asym.
      * rewrite Forall_forall in Hy. now apply Hy.
    + constructor; [now constructor|].
      constructor; [exact Hxy|].
      apply Forall_forall. intros z Hz.
      rewrite Forall_forall in Hy.
      apply cmp_trans with y; [exact Hxy|now apply Hy].
Qed.

Lemma sort_sorted (l : list A) : StronglySorted (not_after cmp) (sort cmp l).
Proof.
  induction l as [|x l IH]; simpl.
  - constructor.
  - now apply sort_insert_sorted.
Qed.
End SortFacts.

Lemma StronglySorted_weaken {A} (R R' : A -> A -> Prop) (l : list A) :
  (forall a b, R a b -> R' a b) ->
  StronglySorted R l -> StronglySorted R' l.
Proof.
  intros Himp. induction 1 as [|a l Hs IH Hall]; constructor; auto.
  eapply Forall_impl; [|exact Hall]. apply Himp.
Qed.

(** ** Scores *)

Lemma number_pos_sub (a b : number) :
  is_score a -> is_score b ->
  (number_pos (number_sub a b) = true <-> number_lt b a).
Proof.
  intros Ha Hb.
  destruct a as [x| | |], b as [y| | |]; simpl in *; try contradiction;
    try (split; [discriminate|contradiction]); try (split; auto; fail).
  rewrite negb_true_iff. split.
  - intros H. destruct (Qlt_le_dec y x) as [Hlt|Hle]; [assumption|].
    assert (Hq : Qle_bool (x - y) 0 = true) by (apply Qle_bool_iff; lra).
    congruence.
  - intros Hlt. destruct (Qle_bool (x - y) 0) eqn:E; [|reflexivity].
    apply Qle_bool_iff in E. lra.
Qed.

Lemma number_lt_asym (a b : number) : number_lt a b -> ~ number_lt b a.
Proof.
  destruct a as [x| | |], b as [y| | |]; simpl; try tauto. intros; lra.
Qed.

Lemma number_not_lt_trans (a b c : number) :
  is_score a -> is_score b -> is_score c ->
  ~ number_lt b a -> ~ number_lt c b -> ~ number_lt c a.
Proof.
  destruct a as [x| | |], b as [y| | |], c as [z| | |]; simpl; try tauto.
  intros _ _ _ H1 H2 H3. apply H1. lra.
Qed.

Section ScoreFacts.
Variable toZonedTime : string -> string -> Z.
Variable startOfDay : Z -> Z.
Variable now : Z.

Lemma getTaskUrgency_is_score (task : Task) :
  is_score (getTaskUrgency toZonedTime now task).
Proof.
  unfold getTaskUrgency. destruct (completed task); [exact I|].
  destruct (getTaskDueDate toZonedTime task); [|exact I].
  cbv zeta. destruct (_ <? 0); exact I.
Qed.

Lemma byUrgency_not_after (a b : Task) :
  not_after (byUrgency toZonedTime now) a b <->
  ~ number_lt (getTaskUrgency toZonedTime now b)
              (getTaskUrgency toZonedTime now a).
Proof.
  unfold not_after, byUrgency.
  rewrite <- (number_pos_sub _ _ (getTaskUrgency_is_score a)
                                 (getTaskUrgency_is_score b)).
  destruct (number_pos _); split; congruence.
Qed.

(** X1. Every bucket comes out in order: in [urgent], [today] and
    [upcoming] no task is followed by one with a strictly lower score,
    and in [someday] no task is followed by one with a smaller
    [order]. *)
Theorem buckets_are_sorted (ts : list Task) :
  let g := groupTasksByUrgency toZonedTime startOfDay now ts in
  let ascending :=
    StronglySorted
      (fun a b => ~ number_lt (getTaskUrgency toZonedTime now b)
                              (getTaskUrgency toZonedTime now a)) in
  ascending (urgent g) /\ ascending (today g) /\ ascending (upcoming g) /\
  StronglySorted (fun a b => order a <= order b) (someday g).
Proof.
  cbv zeta.
  assert (Hu : forall l,
             StronglySorted
               (fun a b => ~ number_lt (getTaskUrgency toZonedTime now b)
                                       (getTaskUrgency toZonedTime now a))
               (sort (byUrgency toZonedTime now) l)).
  { intros l.
    apply StronglySorted_weaken with (not_after (byUrgency toZonedTime now)).
    - intros a b. apply byUrgency_not_after.
    - apply sort_sorted.
      + intros a b Hab. apply byUrgency_not_after.
        apply number_lt_asym.
        apply (number_pos_sub _ _ (getTaskUrgency_is_score a)
                                  (getTaskUrgency_is_score b)).
        exact Hab.
      + intros a b c Hab Hbc.
        apply byUrgency_not_after.
        apply byUrgency_not_after in Hab, Hbc.
        eapply number_not_lt_trans; eauto using getTaskUrgency_is_score. }
  unfold groupTasksByUrgency. simpl.
  repeat split; try apply Hu.
  apply StronglySorted_weaken with (not_after byOrder).
  - intros a b. unfold not_after, byOrder. simpl.
    rewrite negb_false_iff, Qle_bool_iff.
    unfold Qle. simpl. lia.
  - apply sort_sorted.
    + intros a b. unfold not_after, byOrder. simpl.
      rewrite negb_true_iff, negb_false_iff, Qle_bool_iff.
      intros H. destruct (Qle_bool _ 0) eqn:E in H; [discriminate|].
      unfold Qle. simpl.
      assert (~ (inject_Z (order a - order b) <= 0)%Q)
        by (rewrite <- Qle_bool_iff; congruence).
      unfold Qle in *. simpl in *. lia.
    + intros a b c. unfold not_after, byOrder. simpl.
      rewrite !negb_false_iff, !Qle_bool_iff.
      unfold Qle. simpl. lia.
Qed.

Lemma inject_Z_le (a b : Z) : a <= b -> (inject_Z a <= inject_Z b)%Q.
Proof. intros H. now rewrite <- Zle_Qle. Qed.

Lemma inject_Z_lt (a b : Z) : a < b -> (inject_Z a < inject_Z b)%Q.
Proof. intros H. now rewrite <- Zlt_Qlt. Qed.

(** X2. Of two tasks of the same priority and kind, neither completed,
    the one due later never scores strictly lower than the one due
    earlier. *)
Theorem later_due_not_more_urgent (t1 t2 : Task) (d1 d2 : Z) :
  completed t1 = false -> completed t2 = false ->
  getTaskDueDate toZonedTime t1 = Some d1 ->
  getTaskDueDate toZonedTime t2 = Some d2 ->
  priority t1 = priority t2 -> type t1 = type t2 ->
  d1 <= d2 ->
  ~ number_lt (getTaskUrgency toZonedTime now t2)
              (getTaskUrgency toZonedTime now t1).
Proof.
  intros Hc1 Hc2 Hd1 Hd2 Hp Ht Hle.
  rewrite (getTaskUrgency_due toZonedTime now t1 d1 Hc1 Hd1).
  rewrite (getTaskUrgency_due toZonedTime now t2 d2 Hc2 Hd2).
  rewrite Hp, Ht. cbv zeta.
  assert (Hm : differenceInMinutes d1 now <= differenceInMinutes d2 now).
  { unfold differenceInMinutes. apply Z.quot_le_mono.
    - reflexivity.
    - lia. }
  set (m1 := differenceInMinutes d1 now) in *.
  set (m2 := differenceInMinutes d2 now) in *.
  pose proof (inject_Z_le m1 m2 Hm) as Hq.
  destruct (Z.ltb_spec m1 0) as [H1|H1], (Z.ltb_spec m2 0) as [H2|H2];
    try lia; simpl.
  - lra.
  - pose proof (inject_Z_lt m1 0 H1) as Hn.
    pose proof (inject_Z_le 0 m2 H2) as Hz.
    change (inject_Z 0) with 0%Q in Hn, Hz.
    destruct (priority t2) as [[ | | ]|], (type t2); simpl; lra.
  - pose proof (inject_Z_le 0 m1 H1) as Hz.
    change (inject_Z 0) with 0%Q in Hz.
    destruct (priority t2) as [[ | | ]|], (type t2); simpl; lra.
Qed.

(** X3. A task at least one whole minute past due scores strictly
    below every non-completed task whose due instant is not before
    now, whatever their priorities and kinds; and every non-completed
    task with a due date scores strictly below every task that is
    completed or has no due date. *)
Theorem overdue_scores_first (t1 t2 t3 : Task) (d1 d2 : Z) :
  completed t1 = false -> completed t2 = false ->
  getTaskDueDate toZonedTime t1 = Some d1 ->
  getTaskDueDate toZonedTime t2 = Some d2 ->
  (differenceInMinutes d1 now < 0 -> now <= d2 ->
     number_lt (getTaskUrgency toZonedTime now t1)
               (getTaskUrgency toZonedTime now t2))
  /\
  (completed t3 = true \/ getTaskDueDate toZonedTime t3 = None ->
     getTaskUrgency toZonedTime now t3 = Infinity /\
     number_lt (getTaskUrgency toZonedTime now t1)
               (getTaskUrgency toZonedTime now t3)).
Proof.
  intros Hc1 Hc2 Hd1 Hd2. split.
  - intros H1 H2.
    rewrite (getTaskUrgency_due toZonedTime now t1 d1 Hc1 Hd1).
    rewrite (getTaskUrgency_due toZonedTime now t2 d2 Hc2 Hd2).
    cbv zeta.
    assert (Hm2 : 0 <= differenceInMinutes d2 now).
    { unfold differenceInMinutes. apply Z.quot_pos; [lia|reflexivity]. }
    set (m1 := differenceInMinutes d1 now) in *.
    set (m2 := differenceInMinutes d2 now) in *.
    destruct (Z.ltb_spec m1 0) as [_|?]; [|lia].
    destruct (Z.ltb_spec m2 0) as [?|_]; [lia|].
    pose proof (inject_Z_lt m1 0 H1) as Hn.
    pose proof (inject_Z_le 0 m2 Hm2) as Hz.
    change (inject_Z 0) with 0%Q in Hn, Hz.
    destruct (is_priority low (priority t2)),
      (is_priority high (priority t2)), (type t2); simpl; lra.
  - intros H3.
    assert (E : getTaskUrgency toZonedTime now t3 = Infinity).
    { unfold getTaskUrgency. destruct H3 as [->| ->]; [reflexivity|].
      now destruct (completed t3). }
    split; [exact E|]. rewrite E.
    rewrite (getTaskUrgency_due toZonedTime now t1 d1 Hc1 Hd1).
    cbv zeta. destruct (_ <? 0); exact I.
Qed.

(** X4. Of two tasks that differ only in kind, not completed and with
    a due date, the homework one never scores above the life one, and
    scores strictly below it when the due instant is at least one
    whole minute ahead. *)
Theorem homework_scores_lower (task : Task) (due : Z) :
  completed task = false ->
  getTaskDueDate toZonedTime task = Some due ->
  ~ number_lt (getTaskUrgency toZonedTime now (with_type life task))
              (getTaskUrgency toZonedTime now (with_type homework task))
  /\
  (0 < differenceInMinutes due now ->
     number_lt (getTaskUrgency toZonedTime now (with_type homework task))
               (getTaskUrgency toZonedTime now (with_type life task))).
Proof.
  intros Hc Hd.
  rewrite (getTaskUrgency_due toZonedTime now (with_type life task) due Hc Hd).
  rewrite (getTaskUrgency_due toZonedTime now (with_type homework task) due
             Hc Hd).
  cbv zeta. simpl type. simpl priority.
  set (m := differenceInMinutes due now).
  destruct (Z.ltb_spec m 0) as [Hneg|Hpos]; simpl.
  - split; [lra|lia].
  - pose proof (inject_Z_le 0 m Hpos) as Hz.
    change (inject_Z 0) with 0%Q in Hz.
    split.
    + destruct (is_priority low (priority task)),
        (is_priority high (priority task)); lra.
    + intros Hm. pose proof (inject_Z_lt 0 m Hm) as Hs.
      change (inject_Z 0) with 0%Q in Hs.
      destruct (is_priority low (priority task)),
        (is_priority high (priority task)); lra.
Qed.

End ScoreFacts.

(** ** Buckets and the exported predicates *)

Section BucketFacts.
Variable toZonedTime : string -> string -> Z.
Variable startOfDay : Z -> Z.
Variable now : Z.

Lemma dueUrgent_predicates (t : Task) :
  completed t = false ->
  dueUrgent toZonedTime startOfDay now t
  = isTaskOverdue toZonedTime now t
    || isTaskDueToday toZonedTime startOfDay now t.
Proof.
  intros Hc. unfold dueUrgent, isTaskOverdue, isTaskDueToday. rewrite Hc.
  now destruct (getTaskDueDate toZonedTime t).
Qed.

(** X5. The buckets in terms of the exported predicates: a task is in
    [urgent] exactly when it is a non-completed input task that is
    overdue or due today; it is in [today] exactly when it is a
    non-completed input task, neither overdue nor due today, that is
    scheduled for today.  A task without a due date is never in
    [urgent] or [upcoming]. *)
Theorem buckets_by_predicates (ts : list Task) (t : Task) :
  let g := groupTasksByUrgency toZonedTime startOfDay now ts in
  (In t (urgent g) <->
     In t ts /\ completed t = false /\
     (isTaskOverdue toZonedTime now t = true \/
      isTaskDueToday toZonedTime startOfDay now t = true))
  /\
  (In t (today g) <->
     In t ts /\ completed t = false /\
     isTaskOverdue toZonedTime now t = false /\
     isTaskDueToday toZonedTime startOfDay now t = false /\
     isTaskScheduledToday toZonedTime startOfDay now t = true)
  /\
  (getTaskDueDate toZonedTime t = None ->
     ~ In t (urgent g) /\ ~ In t (upcoming g)).
Proof.
  cbv zeta. split; [|split].
  - rewrite (grouped_In toZonedTime startOfDay now ts BUrgent t).
    split; intros (Hin & Hc & H); repeat split; auto.
    + unfold bucketOf in H. rewrite (dueUrgent_predicates t Hc) in H.
      destruct (isTaskOverdue toZonedTime now t); [now left|].
      destruct (isTaskDueToday toZonedTime startOfDay now t); [now right|].
      simpl in H.
      destruct (isTaskScheduledToday toZonedTime startOfDay now t);
        [discriminate|].
      destruct (dueWithinWeek toZonedTime now t); discriminate.
    + unfold bucketOf. rewrite (dueUrgent_predicates t Hc).
      destruct H as [-> | ->]; [reflexivity|].
      now rewrite orb_true_r.
  - rewrite (grouped_In toZonedTime startOfDay now ts BToday t).
    split.
    + intros (Hin & Hc & H). unfold bucketOf in H.
      rewrite (dueUrgent_predicates t Hc) in H.
      destruct (isTaskOverdue toZonedTime now t); [discriminate|].
      destruct (isTaskDueToday toZonedTime startOfDay now t);
        [discriminate|].
      simpl in H.
      destruct (isTaskScheduledToday toZonedTime startOfDay now t);
        [auto|].
      destruct (dueWithinWeek toZonedTime now t); discriminate.
    + intros (Hin & Hc & Ho & Hd & Hs). repeat split; auto.
      unfold bucketOf. rewrite (dueUrgent_predicates t Hc), Ho, Hd, Hs.
      reflexivity.
  - intros Hnone. split; intros Hin.
    + apply (grouped_In toZonedTime startOfDay now ts BUrgent t) in Hin.
      destruct Hin as (_ & _ & H).
      unfold bucketOf, dueUrgent, dueWithinWeek in H. rewrite Hnone in H.
      destruct (isTaskScheduledToday toZonedTime startOfDay now t);
        discriminate.
    + apply (grouped_In toZonedTime startOfDay now ts BUpcoming t) in Hin.
      destruct Hin as (_ & _ & H).
      unfold bucketOf, dueUrgent, dueWithinWeek in H. rewrite Hnone in H.
      destruct (isTaskScheduledToday toZonedTime startOfDay now t);
        discriminate.
Qed.

End BucketFacts.

(** ** Relative time labels *)

(** X6. The label of [formatRelativeTime] is "<n><unit> ago" when the
    whole-minute difference is negative and "in <n><unit>" otherwise,
    where [n] units is the distance rounded down: minutes are shown
    below one hour ([n] from 0 to 59), hours from one hour to below
    one day ([n] from 1 to 23), days from one day on. *)
Theorem formatRelativeTime_rounds_down (now date : Z) :
  let minutes := differenceInMinutes date now in
  exists n u,
    formatRelativeTime now date = label (minutes <? 0) n u /\
    n * unit_minutes u <= Z.abs minutes < (n + 1) * unit_minutes u /\
    match u with
    | Minutes => 0 <= n < 60
    | Hours => 1 <= n < 24
    | Days => 1 <= n
    end.
Proof.
  cbv zeta. unfold formatRelativeTime. cbv zeta.
  generalize (differenceInMinutes date now). intros m.
  destruct (Z.ltb_spec m 0) as [Hneg|Hpos].
  - destruct (Z.ltb_spec (Z.abs m) 60) as [H60|H60];
      [|destruct (Z.ltb_spec (Z.abs m) 1440) as [H1440|H1440]].
    + exists (Z.abs m), Minutes.
      split; [reflexivity|]. cbv beta iota delta [unit_minutes].
      Z.div_mod_to_equations. lia.
    + exists (Z.abs m / 60), Hours.
      split; [reflexivity|]. cbv beta iota delta [unit_minutes].
      Z.div_mod_to_equations. lia.
    + exists (Z.abs m / 1440), Days.
      split; [reflexivity|]. cbv beta iota delta [unit_minutes].
      Z.div_mod_to_equations. lia.
  - destruct (Z.ltb_spec m 60) as [H60|H60];
      [|destruct (Z.ltb_spec m 1440) as [H1440|H1440]].
    + exists m, Minutes.
      split; [reflexivity|]. cbv beta iota delta [unit_minutes].
      Z.div_mod_to_equations. lia.
    + exists (m / 60), Hours.
      split; [reflexivity|]. cbv beta iota delta [unit_minutes].
      Z.div_mod_to_equations. lia.
    + exists (m / 1440), Days.
      split; [reflexivity|]. cbv beta iota delta [unit_minutes].
      Z.div_mod_to_equations. lia.
Qed.

(** X7. A date less than one minute away from now, on either side, is
    labelled "in 0m": the difference is truncated toward zero, so a
    date up to 59.999 seconds in the past, which [isPast] already
    reports, still reads as the future. *)
Theorem formatRelativeTime_within_a_minute (now date : Z) :
  Z.abs (date - now) < MINUTE_MS ->
  formatRelativeTime now date = "in 0m" /\
  (date < now -> isPast now date = true).
Proof.
  intros H.
  assert (E : differenceInMinutes date now = 0).
  { unfold differenceInMinutes. apply Z.quot_small_iff.
    - discriminate.
    - unfold MINUTE_MS in *. lia. }
  split.
  - unfold formatRelativeTime. rewrite E. reflexivity.
  - intros Hlt. unfold isPast. now apply Z.ltb_lt.
Qed.

Lemma formatRelativeTime_within_a_minute_witness :
  formatRelativeTime 1000000 970000 = "in 0m" /\
  isPast 1000000 970000 = true.
Proof.
  destruct (formatRelativeTime_within_a_minute 1000000 970000) as [H1 H2].
  - reflexivity.
  - split; [exact H1|]. apply H2. reflexivity.
Defined.

(** Labels on both sides of now. *)
Example formatRelativeTime_samples :
  formatRelativeTime 0 (-300000) = "5m ago" /\
  formatRelativeTime 0 (3 * 3600000) = "in 3h" /\
  formatRelativeTime 0 (- (49 * 3600000)) = "2d ago" /\
  formatRelativeTime 0 604800000 = "in 7d".
Proof. repeat split. Qed.

(* ================================================================= *)
(** * Further properties of the store *)

(** X8. A call on an id no live task has resolves without touching the
    store or the adapter, whether or not the adapter would accept a
    write: [updateTask] returns null, the other three return. *)
Theorem absent_id_changes_nothing (s : Store) (e : Env) (stamp i : string)
        (u : PartialTask) :
  present i (tasks s) = false ->
  updateTask e i u s = (s, Resolved None) /\
  removeTask (env_io e) i s = (s, Resolved tt) /\
  toggleTaskCompletion stamp e i s = (s, Resolved tt) /\
  incrementPomodoro e i s = (s, Resolved tt).
Proof.
  intros Hp.
  assert (Hf : find (has_id i) (tasks s) = None)
    by now apply find_None_findIndex, findIndex_None.
  repeat split.
  - now apply updateTask_absent.
  - now apply removeTask_absent.
  - unfold toggleTaskCompletion, bind, getTasks. now rewrite Hf.
  - unfold incrementPomodoro, bind, getTasks. now rewrite Hf.
Qed.

Lemma absent_id_changes_nothing_witness :
  updateTask failing_env "id-77" retitle two_tasks
  = (two_tasks, Resolved None) /\
  removeTask (env_io failing_env) "id-77" two_tasks
  = (two_tasks, Resolved tt).
Proof.
  destruct (absent_id_changes_nothing two_tasks failing_env "" "id-77"
              retitle eq_refl) as (H1 & H2 & _).
  split; assumption.
Defined.

Lemma pushAction_last (a : UndoAction) (st : list UndoAction) :
  exists st', pushAction a st = (st' ++ [a])%list.
Proof.
  unfold pushAction.
  destruct (MAX_UNDO_STACK <? List.length (st ++ [a]))%nat eqn:E.
  - destruct st as [|b st].
    + simpl in E. discriminate.
    + exists st. reflexivity.
  - now exists st.
Qed.

(** X9. [undo] takes the newest record off the history before it
    writes: the history is one shorter after every call on a non-empty
    history, and when the adapter's write fails the call rejects with
    the record gone and the collection as it was.  On an empty history
    the call resolves and changes nothing. *)
Theorem undo_consumes_record (s : Store) (io : bool) :
  List.length (undoStack (fst (undo io s)))
  = Nat.pred (List.length (undoStack s))
  /\ (undoStack s = [] -> undo io s = (s, Resolved tt))
  /\ (forall st a,
        undoStack s = (st ++ [a])%list ->
        (action_type a = update -> previousTask a <> None) ->
        undo false s
        = (mkStore (tasks s) (loading s) st (db s), Rejected)).
Proof.
  split; [|split].
  - unfold undo, popAction, getTasks, bind at 1.
    destruct (pop (undoStack s)) as [[rest a]|] eqn:Hpop.
    + apply pop_Some in Hpop. rewrite Hpop, length_app.
      simpl List.length.
      replace (Nat.pred (List.length rest + 1)) with (List.length rest)
        by lia.
      unfold bind, saveTask, deleteTask, setTasks, ret. cbn [tasks].
      destruct (action_type a), (previousTask a) as [p|], io;
        try reflexivity;
        destruct (findIndex (has_id (id p)) (tasks s)); reflexivity.
    + apply pop_nil_iff in Hpop. unfold ret. simpl. now rewrite Hpop.
  - intros H. now apply undo_empty.
  - intros st a Hst Hprev.
    unfold undo, popAction, getTasks, bind at 1. rewrite Hst, pop_snoc.
    unfold bind, saveTask, deleteTask, setTasks, ret. cbn [tasks].
    destruct (action_type a) eqn:Ht, (previousTask a) as [p|];
      try reflexivity.
    exfalso. now apply Hprev.
Qed.

Lemma undo_consumes_record_witness :
  undo false two_tasks
  = (mkStore (tasks two_tasks) (loading two_tasks)
             [mkAction create (newTask (nth_env 0) emptyPartial []) None]
             (db two_tasks),
     Rejected).
Proof.
  apply (proj2 (proj2 (undo_consumes_record two_tasks false))
           [mkAction create (newTask (nth_env 0) emptyPartial []) None]
           (mkAction create
                     (newTask (nth_env 1) emptyPartial
                              [newTask (nth_env 0) emptyPartial []])
                     None)).
  - reflexivity.
  - discriminate.
Defined.

(** ** The collection and the adapter's records *)

Lemma findIndex_middle {A} (p : A -> bool) (l1 l2 : list A) (x : A) :
  (forall z, In z l1 -> p z = false) -> p x = true ->
  findIndex p (l1 ++ x :: l2) = Some (List.length l1).
Proof.
  intros Hl1 Hx. induction l1 as [|a l1 IH]; simpl.
  - now rewrite Hx.
  - rewrite (Hl1 a) by now left. rewrite IH; [reflexivity|].
    intros z Hz. apply Hl1. now right.
Qed.

Lemma set_nth_middle {A} (l1 l2 : list A) (x y : A) :
  set_nth (List.length l1) y (l1 ++ x :: l2) = (l1 ++ y :: l2)%list.
Proof. induction l1 as [|a l1 IH]; simpl; [reflexivity|now rewrite IH]. Qed.

Lemma put_fresh (t : Task) (records : list Task) :
  present (id t) records = false -> put t records = (records ++ [t])%list.
Proof.
  intros H. unfold put. apply findIndex_None in H. now rewrite H.
Qed.

Lemma merged_id (previous : Task) (u : PartialTask) (now i : string) :
  id previous = i -> keeps_id i u = true -> id (merged previous u now) = i.
Proof.
  intros Hid Hk. simpl. unfold keeps_id in Hk.
  destruct (p_id u) as [j|]; simpl; [|assumption].
  now apply String.eqb_eq in Hk.
Qed.

Lemma updateTask_mirrors (e : Env) (i : string) (u : PartialTask)
      (s : Store) :
  env_io e = true ->
  keeps_id i u = true -> tasks s = db s ->
  tasks (fst (updateTask e i u s)) = db (fst (updateTask e i u s)).
Proof.
  intros Hio Hk Hsync.
  destruct (present i (tasks s)) eqn:Hp.
  - destruct (present_split _ _ Hp)
      as (index & l1 & t & l2 & Hl & Hid & Hi & Hn & _ & Hs).
    rewrite (updateTask_resolved e i u s index t) by assumption.
    cbv zeta. simpl. unfold put.
    rewrite (merged_id t u (env_now e) i Hid Hk).
    rewrite <- Hsync, Hi. reflexivity.
  - now rewrite updateTask_absent.
Qed.

Lemma step_mirrors (o : Op) (s : Store) :
  mirrors o s = true -> tasks s = db s ->
  tasks (step o s) = db (step o s).
Proof.
  intros Hm Hsync.
  destruct o as [io|e data|e i u|io i|stamp e i|e i|io|]; simpl in *;
    try discriminate.
  - unfold initStore, try_catch, bind, getAllTasks, setTasks, setLoading.
    destruct io; simpl; auto.
  - apply andb_true_iff in Hm as [Hio Hm]. apply negb_true_iff in Hm.
    rewrite createTask_resolved by assumption. cbv zeta. simpl.
    rewrite put_fresh; [now rewrite Hsync|].
    simpl. now rewrite <- Hsync.
  - apply andb_true_iff in Hm as [Hio Hm]. now apply updateTask_mirrors.
  - subst io. destruct (present i (tasks s)) eqn:Hp.
    + destruct (present_split _ _ Hp)
        as (_ & _ & t & _ & _ & _ & _ & _ & Hf & _).
      rewrite (removeTask_resolved i s t Hf). simpl. now rewrite Hsync.
    + now rewrite removeTask_absent.
  - destruct (find (has_id i) (tasks s)) as [t|] eqn:Hf.
    + rewrite (toggle_is_update stamp e i s t Hf).
      now apply updateTask_mirrors.
    + unfold toggleTaskCompletion, bind, getTasks. now rewrite Hf.
  - destruct (find (has_id i) (tasks s)) as [t|] eqn:Hf.
    + rewrite (increment_is_update e i s t Hf).
      now apply updateTask_mirrors.
    + unfold incrementPomodoro, bind, getTasks. now rewrite Hf.
  - exact Hsync.
Qed.

(** On a write that goes through, the records of the store's adapter
    move as the array of the localStorage engine does. *)
Lemma saveTask_is_localStorage (now : string) (task : Task) (s : Store)
      (ls : LocalStorage.Items) :
  LocalStorage.getAllTasks ls = db s ->
  LocalStorage.getAllTasks (LocalStorage.saveTask now task ls)
  = db (fst (saveTask true task s)).
Proof. intros H. unfold LocalStorage.saveTask. simpl. now rewrite H. Qed.

Lemma deleteTask_is_localStorage (now i : string) (s : Store)
      (ls : LocalStorage.Items) :
  LocalStorage.getAllTasks ls = db s ->
  LocalStorage.getAllTasks (LocalStorage.deleteTask now i ls)
  = db (fst (deleteTask true i s)).
Proof. intros H. unfold LocalStorage.deleteTask. simpl. now rewrite H. Qed.

(** X10. On the localStorage engine, whose records are one array in
    insertion order: once the collection equals the records, as it
    does after a successful [initStore], it still equals them, entry
    by entry, after any sequence of [initStore], [createTask],
    [updateTask], [removeTask], [toggleTaskCompletion],
    [incrementPomodoro] and [clearUndoStack] calls whose writes all go
    through, as long as every create draws an id no live task has and
    no update changes an id.  Reloading then shows the same
    collection. *)
Theorem memory_mirrors_storage (s : Store) (ops : list Op) :
  tasks s = db s ->
  all_mirror ops s = true ->
  tasks (exec ops s) = db (exec ops s) /\
  tasks (fst (initStore true (exec ops s))) = tasks (exec ops s).
Proof.
  revert s. induction ops as [|o rest IH]; intros s Hsync Hall.
  - simpl. split; [assumption|]. now rewrite Hsync.
  - simpl in Hall. apply andb_true_iff in Hall as [Ho Hrest].
    rewrite exec_cons. apply IH; [|assumption].
    now apply step_mirrors.
Qed.

Lemma memory_mirrors_storage_witness :
  tasks (exec mixed_run loaded_store) = db (exec mixed_run loaded_store) /\
  tasks (fst (initStore true (exec mixed_run loaded_store)))
  = tasks (exec mixed_run loaded_store).
Proof.
  apply (memory_mirrors_storage loaded_store mixed_run).
  - reflexivity.
  - vm_compute. reflexivity.
Defined.

(** ** Pomodoros *)

Lemma bumped_bumped (n m : Z) (s1 s2 : string) (task : Task) :
  bumped m s2 (bumped n s1 task) = bumped (n + m) s2 task.
Proof. unfold bumped. simpl. f_equal. lia. Qed.

Lemma bumped_zero (task : Task) : bumped 0 (updatedAt task) task = task.
Proof. destruct task. unfold bumped. simpl. f_equal. lia. Qed.

Lemma merged_pomodoro (task : Task) (stamp : string) :
  - SAFE <= pomodoroCount task < SAFE ->
  merged task (pomodoro_patch task) stamp = bumped 1 stamp task.
Proof.
  intros Hsafe. unfold merged, pomodoro_patch, bumped. simpl.
  now rewrite (add_one_exact _ Hsafe).
Qed.

Lemma increment_once (s : Store) (i : string) (task : Task) (e : Env) :
  find (has_id i) (tasks s) = Some task ->
  env_io e = true ->
  - SAFE <= pomodoroCount task < SAFE ->
  find (has_id i) (tasks (fst (incrementPomodoro e i s)))
  = Some (bumped 1 (env_now e) task).
Proof.
  intros Hf Hio Hsafe.
  destruct (find_split _ _ _ Hf)
    as (index & l1 & l2 & Hl & Hy & Hl1 & Hi & Hn & Hs).
  rewrite (increment_is_update e i s task Hf).
  rewrite (updateTask_resolved e i _ s index task Hio Hi Hn).
  cbv zeta. simpl fst. simpl tasks. rewrite Hs.
  rewrite (merged_pomodoro task (env_now e) Hsafe).
  apply find_middle; [assumption|]. exact Hy.
Qed.

(** X11. [incrementPomodoro], called once per entry of [envs] with
    every write going through, on a task whose [pomodoroCount] is at
    least [-2^53] and stays within [2^53] after the calls, adds
    exactly that many to the count and changes nothing else of the
    task but [updatedAt]. *)
Theorem pomodoros_add_up (envs : list Env) (s : Store) (i : string)
        (task : Task) :
  find (has_id i) (tasks s) = Some task ->
  Forall (fun e => env_io e = true) envs ->
  - SAFE <= pomodoroCount task ->
  pomodoroCount task + Z.of_nat (List.length envs) <= SAFE ->
  exists stamp,
    find (has_id i)
         (tasks (exec (map (fun e => OIncrement e i) envs) s))
    = Some (bumped (Z.of_nat (List.length envs)) stamp task).
Proof.
  intros Hf Hio. revert s task Hf.
  induction Hio as [|e rest He _ IH]; intros s task Hf Hlo Hhi.
  - exists (updatedAt task). simpl. now rewrite bumped_zero.
  - simpl map. rewrite exec_cons. simpl step.
    simpl List.length in Hhi.
    assert (Hsafe : - SAFE <= pomodoroCount task < SAFE) by lia.
    pose proof (increment_once s i task e Hf He Hsafe) as H1.
    destruct (IH _ _ H1) as [stamp Hrest].
    + cbn [bumped pomodoroCount]. lia.
    + cbn [bumped pomodoroCount]. lia.
    + exists stamp. rewrite Hrest, bumped_bumped.
      do 2 f_equal. simpl List.length. lia.
Qed.

Lemma pomodoros_add_up_witness :
  exists stamp,
    find (has_id "id-01")
         (tasks (exec (map (fun e => OIncrement e "id-01") three_pomodoros)
                      two_tasks))
    = Some (bumped 3 stamp
                   (newTask (nth_env 1) emptyPartial
                            [newTask (nth_env 0) emptyPartial []])).
Proof.
  apply (pomodoros_add_up three_pomodoros two_tasks "id-01").
  - reflexivity.
  - repeat constructor.
  - vm_compute. discriminate.
  - vm_compute. discriminate.
Defined.

(** At 2^53 pomodoros the count no longer moves. *)
Example pomodoro_count_absorbed :
  let s := exec [OUpdate (nth_env 2) "id-01" count_far] two_tasks in
  map pomodoroCount (tasks s) = [0; 9007199254740992] /\
  map pomodoroCount (tasks (fst (incrementPomodoro (nth_env 3) "id-01" s)))
  = [0; 9007199254740992].
Proof. split; vm_compute; reflexivity. Qed.

(** ** Updates in place *)

Lemma nth_error_middle {A} (l1 l2 : list A) (x : A) :
  nth_error (l1 ++ x :: l2) (List.length l1) = Some x.
Proof. induction l1 as [|a l1 IH]; simpl; auto. Qed.

Lemma nth_error_other {A} (l1 l2 : list A) (x y : A) (j : nat) :
  j <> List.length l1 ->
  nth_error (l1 ++ y :: l2) j = nth_error (l1 ++ x :: l2) j.
Proof.
  revert j. induction l1 as [|a l1 IH]; intros [|j] Hj; simpl in *;
    try reflexivity; try congruence.
  apply IH. congruence.
Qed.

(** X12. An [updateTask] that finds its task and is written through
    replaces the first task with that id and nothing else: every other
    position keeps its task, the length is the same, and the new
    entry's [updatedAt] is the time of the call even when the patch
    carries its own. *)
Theorem updateTask_replaces_one_entry (s : Store) (e : Env) (i : string)
        (u : PartialTask) :
  env_io e = true ->
  present i (tasks s) = true ->
  exists index previous s',
    updateTask e i u s
    = (s', Resolved (Some (merged previous u (env_now e)))) /\
    nth_error (tasks s) index = Some previous /\
    id previous = i /\
    (forall j t, (j < index)%nat -> nth_error (tasks s) j = Some t ->
                 id t <> i) /\
    nth_error (tasks s') index = Some (merged previous u (env_now e)) /\
    (forall j, j <> index ->
               nth_error (tasks s') j = nth_error (tasks s) j) /\
    List.length (tasks s') = List.length (tasks s) /\
    updatedAt (merged previous u (env_now e)) = env_now e.
Proof.
  intros Hio Hp.
  destruct (present_split _ _ Hp)
    as (index & l1 & t & l2 & Hl & Hid & Hi & Hn & Hf & Hs).
  destruct (find_split _ _ _ Hf)
    as (index' & m1 & m2 & Hl' & _ & Hm1 & Hi' & _ & _).
  assert (index' = index) by congruence. subst index'.
  destruct (findIndex_split _ _ _ Hi)
    as (k1 & y & k2 & Hk & Hlen & _ & Hk1 & Hn' & Hs').
  assert (y = t) by congruence. subst y.
  exists index, t. eexists.
  split; [apply (updateTask_resolved e i u s index t Hio Hi Hn)|].
  simpl tasks. rewrite Hs'.
  repeat split; auto.
  - intros j x Hj Hx. rewrite Hk in Hx.
    rewrite nth_error_app1 in Hx by lia.
    apply nth_error_In in Hx. apply has_id_neq. now apply Hk1.
  - rewrite <- Hlen. apply nth_error_middle.
  - intros j Hj. rewrite Hk. apply nth_error_other. congruence.
  - rewrite Hk, !length_app. reflexivity.
Qed.

Lemma updateTask_replaces_one_entry_witness :
  exists index previous s',
    updateTask (nth_env 3) "id-01" intrusive two_tasks
    = (s', Resolved (Some (merged previous intrusive
                                  (env_now (nth_env 3))))) /\
    nth_error (tasks two_tasks) index = Some previous /\
    List.length (tasks s') = List.length (tasks two_tasks) /\
    updatedAt (merged previous intrusive (env_now (nth_env 3)))
    = "1970-01-01T00:00:00.000Z".
Proof.
  destruct (updateTask_replaces_one_entry two_tasks (nth_env 3) "id-01"
              intrusive eq_refl eq_refl)
    as (index & previous & s' & H1 & H2 & _ & _ & _ & _ & H3 & H4).
  exists index, previous, s'. auto.
Defined.

(** ** One mutation, one undo *)

Lemma undo_after_push (s : Store) (a : UndoAction) (l : list Task)
      (records : list Task) (st : list UndoAction) :
  tasks (fst (undo true (mkStore l (loading s) (pushAction a st) records)))
  = undone a l.
Proof.
  destruct (pushAction_last a st) as [st' Hst].
  destruct (undo_top (mkStore l (loading s) (pushAction a st) records)
                     st' a Hst) as [records' Hu].
  now rewrite Hu.
Qed.

(** X13. [undo] right after a mutation that took effect: after a
    create (with an id no live task had) or an update (that kept the
    id) the collection is exactly the one before, positions included;
    after a delete the other tasks keep their order and the restored
    task stands at the end. *)
Theorem undo_right_after (s : Store) :
  (forall e data,
     env_io e = true -> present (env_uuid e) (tasks s) = false ->
     tasks (fst (undo true (fst (createTask e data s)))) = tasks s)
  /\
  (forall e i u,
     env_io e = true -> present i (tasks s) = true ->
     keeps_id i u = true ->
     tasks (fst (undo true (fst (updateTask e i u s)))) = tasks s)
  /\
  (forall i l1 t l2,
     tasks s = (l1 ++ t :: l2)%list -> id t = i ->
     (forall z, In z (l1 ++ l2)%list -> id z <> i) ->
     tasks (fst (undo true (fst (removeTask true i s))))
     = (l1 ++ l2 ++ [t])%list).
Proof.
  split; [|split].
  - intros e data Hio Hfresh.
    rewrite createTask_resolved by assumption. cbv zeta. simpl fst.
    rewrite undo_after_push. unfold undone. simpl.
    rewrite filter_app. simpl.
    replace (has_id (env_uuid e) (newTask e data (tasks s))) with true
      by (symmetry; now apply has_id_eq).
    simpl. rewrite app_nil_r. apply filter_all.
    intros x Hx. apply negb_true_iff.
    destruct (has_id (env_uuid e) x) eqn:E; [|reflexivity].
    assert (present (env_uuid e) (tasks s) = true)
      by (apply existsb_exists; eauto).
    congruence.
  - intros e i u Hio Hp Hk.
    destruct (present_split _ _ Hp)
      as (index & l1 & t & l2 & Hl & Hid & Hi & Hn & Hf & Hs).
    destruct (find_split _ _ _ Hf)
      as (index' & m1 & m2 & Hm & Hy & Hm1 & Hi' & _ & Hs').
    rewrite (updateTask_resolved e i u s index t Hio Hi Hn).
    cbv zeta. simpl fst. rewrite undo_after_push.
    unfold undone. simpl.
    assert (index' = index) by congruence. subst index'.
    rewrite Hs'. rewrite Hid.
    rewrite (findIndex_middle (has_id i) m1 m2); [| assumption |].
    + rewrite set_nth_middle. now rewrite Hm.
    + apply has_id_eq. now apply merged_id.
  - intros i l1 t l2 Hl Hid Hother.
    assert (Hf : find (has_id i) (tasks s) = Some t).
    { rewrite Hl. apply find_middle.
      - intros z Hz. apply has_id_neq, Hother, in_app_iff. now left.
      - now apply has_id_eq. }
    rewrite (removeTask_resolved i s t Hf). simpl fst.
    rewrite undo_after_push. unfold undone. simpl.
    rewrite Hl, filter_app. simpl.
    replace (has_id i t) with true by (symmetry; now apply has_id_eq).
    simpl. rewrite <- filter_app.
    rewrite filter_all; [now rewrite <- app_assoc|].
    intros x Hx. apply negb_true_iff, has_id_neq. now apply Hother.
Qed.

Lemma undo_right_after_witness :
  tasks (fst (undo true (fst (updateTask (nth_env 3) "id-00" retitle
                                         two_tasks))))
  = tasks two_tasks /\
  tasks (fst (undo true (fst (removeTask true "id-00" two_tasks))))
  = ([] ++ [newTask (nth_env 1) emptyPartial
                    [newTask (nth_env 0) emptyPartial []]]
        ++ [newTask (nth_env 0) emptyPartial []])%list.
Proof.
  destruct (undo_right_after two_tasks) as (_ & Hu & Hr).
  split.
  - apply Hu; reflexivity.
  - apply Hr.
    + reflexivity.
    + reflexivity.
    + intros z [<-|[]]. discriminate.
Defined.

(** ** What [createTask] stores *)

Lemma or_null_string_no_empty (x : option (option string)) :
  no_empty_text (or_null_string x).
Proof.
  unfold no_empty_text, or_null_string.
  destruct x as [[v|]|]; try discriminate.
  destruct v; simpl; discriminate.
Qed.

(** X14. However the partial is filled in, the task [createTask]
    builds has a non-empty title, no text field that is present but
    empty, and no estimate of zero minutes: empty strings and 0 are
    stored as null, a missing or empty title as "Untitled Task". *)
Theorem createTask_normalizes (s s' : Store) (e : Env) (data : PartialTask)
        (task : Task) :
  createTask e data s = (s', Resolved task) ->
  normalized task /\
  (p_title data = None \/ p_title data = Some "" ->
   title task = "Untitled Task") /\
  (forall v, p_title data = Some v -> v <> "" -> title task = v).
Proof.
  intros H.
  assert (task = newTask e data (tasks s)).
  { destruct (env_io e) eqn:Hio.
    - rewrite createTask_resolved in H by assumption. cbv zeta in H.
      now injection H as _ <-.
    - rewrite createTask_rejected in H by assumption. discriminate. }
  subst task. split.
  - unfold normalized. simpl.
    repeat split; try apply or_null_string_no_empty.
    + unfold or_string. destruct (p_title data) as [v|]; [|reflexivity].
      destruct (truthy v) eqn:E; [assumption|reflexivity].
    + unfold or_null_number.
      destruct (p_estimatedMinutes data) as [[n|]|]; try discriminate.
      destruct (Z.eqb_spec n 0); [discriminate|congruence].
  - split.
    + simpl. unfold or_string. intros [-> | ->]; reflexivity.
    + intros v Hv Hne. simpl. rewrite Hv. simpl.
      destruct v; [congruence|reflexivity].
Qed.

Lemma createTask_normalizes_witness :
  normalized (newTask (nth_env 2) emptyPartial (tasks two_tasks)) /\
  title (newTask (nth_env 2) emptyPartial (tasks two_tasks))
  = "Untitled Task".
Proof.
  destruct (createTask_normalizes two_tasks _ (nth_env 2) emptyPartial _
              (createTask_resolved (nth_env 2) emptyPartial two_tasks
                                   eq_refl))
    as (Hn & Ht & _).
  split; [exact Hn|]. apply Ht. now left.
Defined.

(** ** The store seen through the buckets *)

Section StoreAndBuckets.
Variable toZonedTime : string -> string -> Z.
Variable startOfDay : Z -> Z.
Variable now : Z.

Lemma sort_insert_snoc {A} (cmp : A -> A -> number) (a x : A) (l : list A) :
  number_pos (cmp a x) = false ->
  exists l', sort_insert cmp a (l ++ [x]) = (l' ++ [x])%list.
Proof.
  intros Hax. induction l as [|y l [l' IH]]; simpl.
  - rewrite Hax. now exists [a].
  - destruct (number_pos (cmp a y)).
    + rewrite IH. now exists (y :: l').
    + now exists (a :: y :: l).
Qed.

Lemma sort_snoc {A} (cmp : A -> A -> number) (x : A) (l : list A) :
  (forall y, In y l -> number_pos (cmp y x) = false) ->
  exists l', sort cmp (l ++ [x]) = (l' ++ [x])%list.
Proof.
  induction l as [|a l IH]; intros Hl; simpl.
  - now exists [].
  - destruct IH as [l' IH]; [intros y Hy; apply Hl; now right|].
    rewrite IH. apply sort_insert_snoc. apply Hl. now left.
Qed.

(** X15. A task created without a due date and without a scheduled
    date is the last entry of the [someday] bucket of the new
    collection: it is not completed, no test of the grouping loop
    passes for it, and its [order] is below no other. *)
Theorem new_undated_task_is_last (s : Store) (e : Env)
        (data : PartialTask) :
  env_io e = true ->
  or_null_string (p_dueDate data) = None ->
  or_null_string (p_scheduledDate data) = None ->
  exists task s' earlier,
    createTask e data s = (s', Resolved task) /\
    someday (groupTasksByUrgency toZonedTime startOfDay now (tasks s'))
    = (earlier ++ [task])%list.
Proof.
  intros Hio Hdue Hsched.
  rewrite createTask_resolved by assumption. cbv zeta.
  set (task := newTask e data (tasks s)).
  assert (Hgo : goes_to toZonedTime startOfDay now BSomeday task = true).
  { unfold goes_to, bucketOf, dueUrgent, isTaskScheduledToday,
      dueWithinWeek, getTaskDueDate, getTaskScheduledDate.
    simpl. rewrite Hdue, Hsched. reflexivity. }
  pose proof (groupLoop_filter toZonedTime startOfDay now
                (tasks s ++ [task]) (mkGroups [] [] [] []) BSomeday) as Hloop.
  simpl in Hloop. rewrite filter_app in Hloop. simpl in Hloop.
  rewrite Hgo in Hloop.
  destruct (sort_snoc byOrder task
              (filter (goes_to toZonedTime startOfDay now BSomeday)
                      (tasks s))) as [earlier Hsort].
  { intros y Hy. apply filter_In in Hy. destruct Hy as [Hy _].
    unfold byOrder. simpl. rewrite negb_false_iff, Qle_bool_iff.
    assert (Hne : tasks s <> []) by (intros E; rewrite E in Hy; inversion Hy).
    destruct (maxOrderOf_max (tasks s) Hne) as [_ Hmax].
    specialize (Hmax y Hy).
    pose proof (add_one_ge (maxOrderOf (tasks s))) as Hge.
    unfold Qle. simpl. lia. }
  exists task. eexists. exists earlier. split; [reflexivity|].
  unfold groupTasksByUrgency. simpl someday. simpl tasks.
  rewrite Hloop. exact Hsort.
Qed.

(** X16. Completing a task takes it out of the buckets and leaves the
    others where they were: after a toggle, written through, of a task
    that was not completed, in a store with distinct ids, no bucket
    holds a task with that id, and every task with another id is in
    the same buckets as before. *)
Theorem completed_task_leaves_buckets (s : Store) (stamp : string)
        (e : Env) (i : string) (task : Task) :
  NoDup (ids (tasks s)) ->
  find (has_id i) (tasks s) = Some task ->
  completed task = false ->
  env_io e = true ->
  forall b t,
    (In t (bucket_list b
             (groupTasksByUrgency toZonedTime startOfDay now
                (tasks (fst (toggleTaskCompletion stamp e i s))))) ->
     id t <> i)
    /\
    (id t <> i ->
     (In t (bucket_list b
              (groupTasksByUrgency toZonedTime startOfDay now
                 (tasks (fst (toggleTaskCompletion stamp e i s)))))
      <->
      In t (bucket_list b
              (groupTasksByUrgency toZonedTime startOfDay now (tasks s))))).
Proof.
  intros Hnd Hf Hc Hio b t.
  destruct (find_split _ _ _ Hf)
    as (index & l1 & l2 & Hl & Hy & Hl1 & Hi & Hn & Hs).
  apply has_id_eq in Hy.
  rewrite (toggle_is_update stamp e i s task Hf).
  rewrite (updateTask_resolved e i _ s index task Hio Hi Hn).
  cbv zeta. simpl fst. simpl tasks. rewrite Hs.
  set (done := merged task (toggle_patch stamp task) (env_now e)).
  assert (Hdone : completed done = true) by (simpl; now rewrite Hc).
  rewrite !grouped_In. rewrite Hl in Hnd |- *.
  assert (Hrest : forall z, In z (l1 ++ l2)%list -> id z <> i).
  { intros z Hz Heq.
    assert (Hin : In z (l1 ++ task :: l2)).
    { apply in_app_iff in Hz. apply in_app_iff. simpl. tauto. }
    assert (z = task).
    { apply (NoDup_map_inj id (l1 ++ task :: l2)); auto.
      - apply in_elt.
      - congruence. }
    subst z. unfold ids in Hnd. rewrite map_app in Hnd. simpl in Hnd.
    apply NoDup_remove_2 in Hnd. apply Hnd.
    rewrite <- map_app. now apply in_map. }
  split.
  - intros (Hin & Hct & _).
    apply in_app_iff in Hin. simpl in Hin.
    destruct Hin as [Hin|[<-|Hin]].
    + apply Hrest, in_app_iff. now left.
    + congruence.
    + apply Hrest, in_app_iff. now right.
  - intros Hne. rewrite !in_app_iff. simpl.
    split; intros (Hin & Hrest'); (split; [|exact Hrest']).
    + destruct Hin as [Hin|[<-|Hin]]; auto.
      exfalso. apply Hne. subst done. simpl. exact Hy.
    + destruct Hin as [Hin|[<-|Hin]]; auto.
      exfalso. now apply Hne.
Qed.

End StoreAndBuckets.

(* ================================================================= *)
(** * The adapter on the localStorage engine *)

Lemma put_lookup (t : Task) (records : list Task) :
  find (has_id (id t)) (put t records) = Some t.
Proof.
  unfold put.
  destruct (findIndex (has_id (id t)) records) as [index|] eqn:E.
  - destruct (findIndex_split _ _ _ E)
      as (l1 & y & l2 & _ & _ & _ & Hl1 & _ & Hs).
    rewrite Hs. apply find_middle; [assumption|now apply has_id_eq].
  - apply find_middle; [|now apply has_id_eq].
    intros z Hz. apply findIndex_None in E.
    destruct (has_id (id t) z) eqn:Hz'; [|reflexivity].
    assert (existsb (has_id (id t)) records = true)
      by (apply existsb_exists; eauto).
    congruence.
Qed.

Lemma put_others (t : Task) (records : list Task) :
  filter (fun x => negb (has_id (id t) x)) (put t records)
  = filter (fun x => negb (has_id (id t) x)) records.
Proof.
  unfold put.
  destruct (findIndex (has_id (id t)) records) as [index|] eqn:E.
  - destruct (findIndex_split _ _ _ E)
      as (l1 & y & l2 & -> & _ & Hy & _ & _ & Hs).
    rewrite Hs, !filter_app. simpl. rewrite Hy.
    replace (has_id (id t) t) with true by (symmetry; now apply has_id_eq).
    reflexivity.
  - rewrite filter_app. simpl.
    replace (has_id (id t) t) with true by (symmetry; now apply has_id_eq).
    simpl. now rewrite app_nil_r.
Qed.

Lemma put_ids (t : Task) (records : list Task) :
  NoDup (ids records) -> NoDup (ids (put t records)).
Proof.
  intros Hnd. unfold put.
  destruct (findIndex (has_id (id t)) records) as [index|] eqn:E.
  - destruct (findIndex_split _ _ _ E)
      as (l1 & y & l2 & Hl & _ & Hy & _ & _ & Hs).
    rewrite Hs. apply has_id_eq in Hy.
    rewrite (ids_middle l1 l2 t y) by congruence. now rewrite <- Hl.
  - unfold ids. rewrite map_app. simpl.
    apply Permutation_NoDup with (id t :: ids records).
    + apply Permutation_cons_append.
    + constructor; [|assumption].
      intros Hin. apply present_In in Hin. apply findIndex_None in E.
      unfold present in Hin. congruence.
Qed.

Lemma put_length (t : Task) (records : list Task) :
  List.length (put t records)
  = (if present (id t) records then List.length records
     else S (List.length records)).
Proof.
  unfold put, present.
  destruct (findIndex (has_id (id t)) records) as [index|] eqn:E.
  - destruct (findIndex_split _ _ _ E)
      as (l1 & y & l2 & Hl & _ & Hy & _ & _ & Hs).
    rewrite Hs.
    replace (existsb (has_id (id t)) records) with true.
    + rewrite Hl, !length_app. reflexivity.
    + symmetry. apply existsb_exists. exists y. split; [|assumption].
      rewrite Hl. apply in_elt.
  - apply findIndex_None in E. rewrite E, length_app. simpl. lia.
Qed.

Lemma saveTask_records (now : string) (task : Task)
      (ls : LocalStorage.Items) :
  LocalStorage.getAllTasks (LocalStorage.saveTask now task ls)
  = put task (LocalStorage.getAllTasks ls).
Proof. reflexivity. Qed.

Lemma deleteTask_records (now i : string) (ls : LocalStorage.Items) :
  LocalStorage.getAllTasks (LocalStorage.deleteTask now i ls)
  = filter (fun t => negb (has_id i t)) (LocalStorage.getAllTasks ls).
Proof. reflexivity. Qed.

(** X17. On the localStorage engine, [saveTask] is an upsert by id:
    afterwards a lookup by the task's id finds the saved task, the
    records with other ids are the same and in the same order, the
    number of records grows by one exactly when the id was new, ids
    that were distinct stay distinct, and the metadata carries schema
    version 1 and the time of the call. *)
Theorem saveTask_upserts (now : string) (task : Task)
        (ls : LocalStorage.Items) :
  let before := LocalStorage.getAllTasks ls in
  let after := LocalStorage.getAllTasks (LocalStorage.saveTask now task ls) in
  find (has_id (id task)) after = Some task /\
  filter (fun x => negb (has_id (id task) x)) after
  = filter (fun x => negb (has_id (id task) x)) before /\
  List.length after
  = (if present (id task) before then List.length before
     else S (List.length before)) /\
  (NoDup (ids before) -> NoDup (ids after)) /\
  (forall later,
     LocalStorage.getMetadata later (LocalStorage.saveTask now task ls)
     = LocalStorage.mkMetadata 1 now).
Proof.
  cbv zeta. rewrite saveTask_records.
  repeat split.
  - apply put_lookup.
  - apply put_others.
  - apply put_length.
  - apply put_ids.
Qed.

(** X18. On the localStorage engine, [deleteTask] leaves no record with
    the id and keeps the others in order; for an id that is not stored
    the records are as before.  Deleting a task just saved under a new
    id gives back the records from before the save. *)
Theorem deleteTask_removes (now : string) (i : string)
        (ls : LocalStorage.Items) :
  let before := LocalStorage.getAllTasks ls in
  let after := LocalStorage.getAllTasks (LocalStorage.deleteTask now i ls) in
  (forall t, In t after -> id t <> i) /\
  (forall t, id t <> i -> (In t after <-> In t before)) /\
  (present i before = false -> after = before) /\
  (forall stamp task,
     id task = i -> present i before = false ->
     LocalStorage.getAllTasks
       (LocalStorage.deleteTask now i (LocalStorage.saveTask stamp task ls))
     = before).
Proof.
  cbv zeta. rewrite deleteTask_records.
  assert (Habsent : forall l, present i l = false ->
                      filter (fun t => negb (has_id i t)) l = l).
  { intros l Hp. apply filter_all. intros x Hx. apply negb_true_iff.
    destruct (has_id i x) eqn:E; [|reflexivity].
    assert (present i l = true) by (apply existsb_exists; eauto).
    congruence. }
  split; [|split; [|split]].
  - intros t H. apply filter_In in H. destruct H as [_ H].
    apply negb_true_iff in H. now apply has_id_neq.
  - intros t Hne. rewrite filter_In. split; [tauto|].
    intros Hin. split; [assumption|].
    now apply negb_true_iff, has_id_neq.
  - apply Habsent.
  - intros stamp task Hid Hp. subst i.
    rewrite deleteTask_records, saveTask_records.
    rewrite put_fresh by assumption.
    rewrite filter_app. simpl.
    replace (has_id (id task) task) with true
      by (symmetry; now apply has_id_eq).
    simpl. rewrite app_nil_r. now apply Habsent.
Qed.

(** X19. On the localStorage engine, [importData] replaces the whole
    collection by the document's tasks, keeps the stored metadata when
    the document has none, and importing a document just exported
    changes neither the tasks nor what [exportData] returns. *)
Theorem export_import_round_trip (now later : string)
        (ls : LocalStorage.Items) (data : LocalStorage.Document) :
  LocalStorage.getAllTasks (LocalStorage.importData data ls)
  = LocalStorage.doc_tasks data /\
  (LocalStorage.doc_metadata data = None ->
   LocalStorage.planner_meta (LocalStorage.importData data ls)
   = LocalStorage.planner_meta ls) /\
  LocalStorage.getAllTasks
    (LocalStorage.importData (LocalStorage.exportData now ls) ls)
  = LocalStorage.getAllTasks ls /\
  LocalStorage.exportData later
    (LocalStorage.importData (LocalStorage.exportData now ls) ls)
  = LocalStorage.exportData now ls.
Proof.
  unfold LocalStorage.importData, LocalStorage.exportData,
    LocalStorage.getAllTasks, LocalStorage.getMetadata.
  cbv zeta. simpl.
  repeat split.
  - now destruct (LocalStorage.doc_metadata data).
  - now intros ->.
Qed.

(** After [clearAllData] there are no tasks and no stored metadata
    ([getMetadata] answers with schema version 1 and the time of the
    question), whatever was stored; the first [saveTask] after it
    stores exactly that task. *)
Example clearAllData_empties (now : string) (task : Task)
        (ls : LocalStorage.Items) :
  LocalStorage.getAllTasks (LocalStorage.clearAllData ls) = [] /\
  LocalStorage.getMetadata now (LocalStorage.clearAllData ls)
  = LocalStorage.mkMetadata 1 now /\
  LocalStorage.getAllTasks
    (LocalStorage.saveTask now task (LocalStorage.clearAllData ls))
  = [task].
Proof. repeat split. Qed.

(* ================================================================= *)
(** * The planner's callers *)

(** X20. The grouping shows nothing exactly when every task is
    completed: all four buckets are empty if and only if the input has
    no task that is not completed.  (The planner page renders the four
    buckets, and its empty state only for an empty collection.) *)
Theorem buckets_empty_iff_all_completed
        (toZonedTime : string -> string -> Z) (startOfDay : Z -> Z)
        (now : Z) (ts : list Task) :
  let g := groupTasksByUrgency toZonedTime startOfDay now ts in
  (urgent g = [] /\ today g = [] /\ upcoming g = [] /\ someday g = [])
  <-> (forall t, In t ts -> completed t = true).
Proof.
  cbv zeta. split.
  - intros (Hu & Ht & Hup & Hs) t Hin.
    destruct (completed t) eqn:Hc; [reflexivity|exfalso].
    assert (H : In t (bucket_list
                        (bucketOf toZonedTime startOfDay now t)
                        (groupTasksByUrgency toZonedTime startOfDay now ts)))
      by (apply grouped_In; auto).
    destruct (bucketOf toZonedTime startOfDay now t);
      cbn [bucket_list] in H;
      [rewrite Hu in H|rewrite Ht in H|rewrite Hup in H|rewrite Hs in H];
      exact H.
  - intros Hall.
    assert (Hnone : forall b,
               bucket_list b
                 (groupTasksByUrgency toZonedTime startOfDay now ts) = []).
    { intros b.
      destruct (bucket_list b _) as [|t l] eqn:E; [reflexivity|exfalso].
      assert (Hin : In t (bucket_list b
                 (groupTasksByUrgency toZonedTime startOfDay now ts)))
        by (rewrite E; now left).
      apply grouped_In in Hin. destruct Hin as (Hin & Hc & _).
      rewrite (Hall t Hin) in Hc. discriminate. }
    repeat split.
    + exact (Hnone BUrgent).
    + exact (Hnone BToday).
    + exact (Hnone BUpcoming).
    + exact (Hnone BSomeday).
Qed.

Lemma or_null_string_or_null (x : string) :
  or_null_string (Some (or_null x)) = or_null x.
Proof.
  unfold or_null_string, or_null.
  now destruct (truthy x) eqn:E; rewrite ?E.
Qed.

(** X21. Submitting the quick-add form: with a title that is blank
    after trimming nothing is created and the store is untouched;
    otherwise, the write going through, one task is appended whose
    title is the trimmed title (never the placeholder), whose kind and
    priority are the chosen ones, whose subject and notes are the
    trimmed texts or null when those are empty, whose dates and times
    are the entered ones or null when empty, and whose estimate is the
    entered number or null when it is absent or 0. *)
Theorem quick_add_creates (trim : string -> string) (f : QuickAddForm)
        (e : Env) (s : Store) :
  env_io e = true ->
  (truthy (trim (f_title f)) = false ->
     submitQuickAdd trim e f s = (s, Resolved None))
  /\
  (truthy (trim (f_title f)) = true ->
     exists task s',
       submitQuickAdd trim e f s = (s', Resolved (Some task)) /\
       tasks s' = (tasks s ++ [task])%list /\
       title task = trim (f_title f) /\
       type task = f_type f /\
       subject task = or_null (trim (f_subject f)) /\
       notes task = or_null (trim (f_notes f)) /\
       dueDate task = or_null (f_dueDate f) /\
       dueTime task = or_null (f_dueTime f) /\
       scheduledDate task = or_null (f_scheduledDate f) /\
       scheduledTime task = or_null (f_scheduledTime f) /\
       estimatedMinutes task
       = match f_estimatedMinutes f with
         | Some 0 => None
         | other => other
         end /\
       priority task = f_priority f).
Proof.
  intros Hio. split; intros Ht; unfold submitQuickAdd, handleSubmit;
    rewrite Ht; cbn [negb]; cbv beta iota.
  - reflexivity.
  - unfold bind. cbv beta.
    rewrite createTask_resolved by assumption. cbv zeta.
    eexists. eexists. split; [reflexivity|].
    unfold newTask.
    cbn [tasks title type subject notes dueDate dueTime scheduledDate
         scheduledTime estimatedMinutes priority p_title p_type p_subject
         p_notes p_dueDate p_dueTime p_scheduledDate p_scheduledTime
         p_estimatedMinutes p_priority].
    rewrite !or_null_string_or_null.
    repeat split.
    + unfold or_string. now rewrite Ht.
    + destruct (f_estimatedMinutes f) as [[|n|n]|]; reflexivity.
    + now destruct (f_priority f).
Qed.

Lemma quick_add_creates_witness :
  submitQuickAdd trim_blanks (nth_env 2) blank_form two_tasks
  = (two_tasks, Resolved None) /\
  exists task s',
    submitQuickAdd trim_blanks (nth_env 2) sample_form two_tasks
    = (s', Resolved (Some task)) /\
    title task = "Read chapter 4" /\
    subject task = None /\
    dueDate task = Some "1970-01-03" /\
    estimatedMinutes task = None.
Proof.
  split.
  - apply (proj1 (quick_add_creates trim_blanks blank_form (nth_env 2)
                    two_tasks eq_refl)).
    reflexivity.
  - destruct (proj2 (quick_add_creates trim_blanks sample_form (nth_env 2)
                       two_tasks eq_refl) eq_refl)
      as (task & s' & H & _ & Ht & _ & Hs & _ & Hd & _ & _ & _ & He & _).
    exists task, s'. auto.
Defined.

(* ================================================================= *)
(** * Instances *)

Lemma later_due_not_more_urgent_witness :
  ~ number_lt (getTaskUrgency utc_toZonedTime 0 due_in_a_week)
              (getTaskUrgency utc_toZonedTime 0 due_in_two_days).
Proof.
  apply (later_due_not_more_urgent utc_toZonedTime 0 due_in_two_days
           due_in_a_week 216000000 604800000);
    try reflexivity.
  discriminate.
Defined.

Lemma overdue_scores_first_witness :
  number_lt (getTaskUrgency utc_toZonedTime 0 due_five_minutes_ago)
            (getTaskUrgency utc_toZonedTime 0 due_in_two_days) /\
  number_lt (getTaskUrgency utc_toZonedTime 0 due_five_minutes_ago)
            (getTaskUrgency utc_toZonedTime 0 done_task).
Proof.
  destruct (overdue_scores_first utc_toZonedTime 0 due_five_minutes_ago
              due_in_two_days done_task (-300000) 216000000
              eq_refl eq_refl eq_refl eq_refl) as [H1 H2].
  split.
  - apply H1; [reflexivity|discriminate].
  - apply H2. now left.
Defined.

Lemma homework_scores_lower_witness :
  number_lt
    (getTaskUrgency utc_toZonedTime 0 (with_type homework due_in_a_week))
    (getTaskUrgency utc_toZonedTime 0 (with_type life due_in_a_week)).
Proof.
  apply (proj2 (homework_scores_lower utc_toZonedTime 0 due_in_a_week
                  604800000 eq_refl eq_refl)).
  reflexivity.
Defined.

Lemma buckets_by_predicates_witness :
  In late_and_scheduled
     (urgent (groupTasksByUrgency utc_toZonedTime utc_startOfDay 0
                                  sample_tasks)).
Proof.
  apply (proj1 (buckets_by_predicates utc_toZonedTime utc_startOfDay 0
                  sample_tasks late_and_scheduled)).
  split; [simpl; tauto|]. split; [reflexivity|]. left. reflexivity.
Defined.

Lemma new_undated_task_is_last_witness :
  exists task s' earlier,
    createTask (nth_env 2) emptyPartial two_tasks = (s', Resolved task) /\
    someday (groupTasksByUrgency utc_toZonedTime utc_startOfDay 0 (tasks s'))
    = (earlier ++ [task])%list.
Proof.
  apply (new_undated_task_is_last utc_toZonedTime utc_startOfDay 0
           two_tasks (nth_env 2) emptyPartial); reflexivity.
Defined.

Lemma completed_task_leaves_buckets_witness :
  In (newTask (nth_env 1) emptyPartial [newTask (nth_env 0) emptyPartial []])
     (bucket_list BSomeday
        (groupTasksByUrgency utc_toZonedTime utc_startOfDay 0
           (tasks (fst (toggleTaskCompletion "1970-01-01T09:00:00.000Z"
                          (nth_env 2) "id-00" two_tasks)))))
  <->
  In (newTask (nth_env 1) emptyPartial [newTask (nth_env 0) emptyPartial []])
     (bucket_list BSomeday
        (groupTasksByUrgency utc_toZonedTime utc_startOfDay 0
           (tasks two_tasks))).
Proof.
  apply (completed_task_leaves_buckets utc_toZonedTime utc_startOfDay 0
           two_tasks "1970-01-01T09:00:00.000Z" (nth_env 2) "id-00"
           (newTask (nth_env 0) emptyPartial [])).
  - vm_compute. repeat constructor; simpl; intuition discriminate.
  - reflexivity.
  - reflexivity.
  - reflexivity.
  - discriminate.
Defined.

Lemma saveTask_upserts_witness :
  find (has_id "id-01")
       (LocalStorage.getAllTasks
          (LocalStorage.saveTask "1970-01-02T00:00:00.000Z" replacement
                                 two_items))
  = Some replacement /\
  NoDup (ids (LocalStorage.getAllTasks
                (LocalStorage.saveTask "1970-01-02T00:00:00.000Z"
                                       replacement two_items))).
Proof.
  destruct (saveTask_upserts "1970-01-02T00:00:00.000Z" replacement
              two_items) as (H1 & _ & _ & H2 & _).
  split; [exact H1|]. apply H2.
  vm_compute. repeat constructor; simpl; intuition discriminate.
Defined.

Lemma deleteTask_removes_witness :
  LocalStorage.getAllTasks
    (LocalStorage.deleteTask "1970-01-02T00:00:00.000Z" "t-week"
       (LocalStorage.saveTask "1970-01-01T12:00:00.000Z" due_in_a_week
                              two_items))
  = LocalStorage.getAllTasks two_items.
Proof.
  apply (proj2 (proj2 (proj2
           (deleteTask_removes "1970-01-02T00:00:00.000Z" "t-week"
                               two_items)))).
  - reflexivity.
  - reflexivity.
Defined.

Lemma export_import_round_trip_witness :
  LocalStorage.planner_meta
    (LocalStorage.importData (LocalStorage.mkDocument [done_task] None)
                             two_items)
  = LocalStorage.planner_meta two_items.
Proof.
  apply (proj1 (proj2
           (export_import_round_trip "" "" two_items
              (LocalStorage.mkDocument [done_task] None)))).
  reflexivity.
Defined.

Lemma buckets_empty_iff_all_completed_witness :
  urgent (groupTasksByUrgency utc_toZonedTime utc_startOfDay 0 [done_task])
  = [] /\
  today (groupTasksByUrgency utc_toZonedTime utc_startOfDay 0 [done_task])
  = [] /\
  upcoming (groupTasksByUrgency utc_toZonedTime utc_startOfDay 0 [done_task])
  = [] /\
  someday (groupTasksByUrgency utc_toZonedTime utc_startOfDay 0 [done_task])
  = [].
Proof.
  apply (proj2 (buckets_empty_iff_all_completed utc_toZonedTime
                  utc_startOfDay 0 [done_task])).
  intros t [<-|[]]. reflexivity.
Defined.
